(** * shlog4go: a shallow embedding of the logger and its specification

    The Go package [shlog4go] (one file, [shlog4go.go]) is embedded as Rocq
    functions over an explicit machine state: the [SHLogger] struct behind
    the receiver pointer, and the part of the operating system and Go
    runtime the package talks to (open files, the disk, the wall clock).

    Conventions.
    - A Go [string] is a Rocq [string]; a [[]byte] is a [list ascii].
    - A Go [int] is a [Z].  The package only stores and compares severities
      ([<=]), so no arithmetic can wrap; indices into the prefix range over
      [0 .. len+1] and are kept in [nat].
    - A Go [map[string]int] is a [gmap string Z].  The [categories] map is
      written to, so its nil-ness matters (a write to a nil map panics) and
      it is an [option]; [levelmap] is only read, and a nil map reads like
      the empty one.
    - [*os.File] is an index into the table of open-file objects of the
      [World]; the nil pointer is [None]. *)

From Stdlib Require Import ZArith String Ascii DecimalString.
From stdpp Require Import gmap strings list fin_maps.
From Equations Require Import Equations.

#[local] Open Scope Z_scope.

Module shlog4go.

(** ** Go values *)

Abbreviation bytes := (list ascii).

(** [[]byte(s)] and [string(b)]. *)
Definition bytes_of (s : string) : bytes := list_ascii_of_string s.
Definition string_of (b : bytes) : string := string_of_list_ascii b.

(** The errors the [os] package hands back to this code. *)
Inductive error : Type :=
  | ErrInvalid                       (* os.ErrInvalid: method on a nil *File *)
  | ErrClosed                        (* os.ErrClosed: file already closed *)
  | PathError (op path : string).    (* *os.PathError from OpenFile *)

(** An [os.File] object. *)
Record File : Type := mkFile {
  f_name : string;
  f_closed : bool
}.

(** One frame of the goroutine's stack, as [runtime.Caller] reports it. *)
Record Frame : Type := mkFrame {
  fr_pc : Z;
  fr_file : string;
  fr_line : Z
}.

(** Calls that leave the package, in the order they happen. *)
Inductive Event : Type :=
  | EvLock
  | EvUnlock
  | EvCaller (skip : nat)
  | EvNow
  | EvOpenFile (name : string)
  | EvClose (f : option nat)
  | EvWrite (f : option nat) (b : bytes).

(** The world outside the logger. [denied] holds the paths on which
    [os.OpenFile] fails; [clock n] is what the [n]-th call of [time.Now]
    returns; [trace] is the history of calls that left the package. *)
Record World : Type := mkWorld {
  disk : gmap string bytes;
  handles : list File;
  denied : gset string;
  clock : nat -> Z;
  ticks : nat;
  trace : list Event
}.

(** [type SHLogger struct]. [mutex] is [true] while the lock is held. *)
Record SHLogger : Type := mkSHLogger {
  filename : string;
  mutex : bool;
  prefix : string;
  timeformat : string;
  out : option nat;
  categories : option (gmap string Z);
  levelmap : gmap string Z;
  deflevel : Z
}.

(** The receiver [log *SHLogger] together with the world it runs in. *)
Record Machine : Type := mkMachine {
  self : SHLogger;
  world : World
}.

(** The facilities of the standard library that the package calls and that
    are left abstract: the body formatters of [fmt], [Time.Format], and the
    symbol table behind [runtime.FuncForPC(pc).Name()] (the empty string
    where [FuncForPC] returns nil). *)
Class GoRuntime : Type := {
  iface : Type;
  fmt_Sprintf : string -> list iface -> string;
  fmt_Sprintln : list iface -> string;
  time_Format : Z -> string -> string;
  runtime_FuncName : Z -> string
}.

(** ** Field updates *)

Definition set_trace (w : World) (t : list Event) : World :=
  mkWorld (disk w) (handles w) (denied w) (clock w) (ticks w) t.
Definition set_ticks (w : World) (n : nat) : World :=
  mkWorld (disk w) (handles w) (denied w) (clock w) n (trace w).
Definition set_disk (w : World) (d : gmap string bytes) : World :=
  mkWorld d (handles w) (denied w) (clock w) (ticks w) (trace w).
Definition set_handles (w : World) (h : list File) : World :=
  mkWorld (disk w) h (denied w) (clock w) (ticks w) (trace w).

Definition set_mutex (l : SHLogger) (b : bool) : SHLogger :=
  mkSHLogger (filename l) b (prefix l) (timeformat l) (out l)
             (categories l) (levelmap l) (deflevel l).
Definition set_prefix (l : SHLogger) (p : string) : SHLogger :=
  mkSHLogger (filename l) (mutex l) p (timeformat l) (out l)
             (categories l) (levelmap l) (deflevel l).
Definition set_timeformat (l : SHLogger) (t : string) : SHLogger :=
  mkSHLogger (filename l) (mutex l) (prefix l) t (out l)
             (categories l) (levelmap l) (deflevel l).
Definition set_out (l : SHLogger) (o : option nat) : SHLogger :=
  mkSHLogger (filename l) (mutex l) (prefix l) (timeformat l) o
             (categories l) (levelmap l) (deflevel l).
Definition set_categories (l : SHLogger) (c : option (gmap string Z)) : SHLogger :=
  mkSHLogger (filename l) (mutex l) (prefix l) (timeformat l) (out l)
             c (levelmap l) (deflevel l).
Definition set_levelmap (l : SHLogger) (lm : gmap string Z) : SHLogger :=
  mkSHLogger (filename l) (mutex l) (prefix l) (timeformat l) (out l)
             (categories l) lm (deflevel l).
Definition set_deflevel (l : SHLogger) (d : Z) : SHLogger :=
  mkSHLogger (filename l) (mutex l) (prefix l) (timeformat l) (out l)
             (categories l) (levelmap l) d.

(** ** The monad of a method call

    A method either returns, panics, or blocks for ever on a lock that is
    not released (the view of one goroutine). *)

Inductive Outcome (A : Type) : Type :=
  | Ret (a : A)
  | Panic (msg : string)
  | Blocked.
Arguments Ret {A} a.
Arguments Panic {A} msg.
Arguments Blocked {A}.

Definition M (A : Type) : Type := Machine -> Outcome A * Machine.

#[global] Instance M_ret : MRet M := fun A a m => (Ret a, m).
#[global] Instance M_bind : MBind M := fun A B f x m =>
  match x m with
  | (Ret a, m') => f a m'
  | (Panic msg, m') => (Panic msg, m')
  | (Blocked, m') => (Blocked, m')
  end.

(** Operations of the world alone, lifted to a method call. *)
Definition IO (A : Type) : Type := World -> A * World.

Definition liftIO {A} (io : IO A) : M A := fun m =>
  let '(a, w) := io (world m) in (Ret a, mkMachine (self m) w).

Definition get_self : M SHLogger := fun m => (Ret (self m), m).
Definition put_self (l : SHLogger) : M unit := fun m =>
  (Ret tt, mkMachine l (world m)).
Definition panic {A} (msg : string) : M A := fun m => (Panic msg, m).

(** ** The operating system and the runtime *)

(** [os.OpenFile(name, O_CREATE|O_APPEND|O_RDWR, 0644)]: fails on a denied
    path; otherwise creates the file if it is absent and returns a new open
    file object. *)
Definition os_OpenFile (name : string) : IO (nat + error) := fun w =>
  let w := set_trace w (trace w ++ [EvOpenFile name]) in
  if decide (name ∈ denied w) then (inr (PathError "open" name), w)
  else
    let d := match disk w !! name with
             | Some _ => disk w
             | None => <[name := []]> (disk w)
             end in
    (inl (length (handles w)),
     set_handles (set_disk w d) (handles w ++ [mkFile name false])).

(** [File.Close] (pointer receiver). *)
Definition File_Close (f : option nat) : IO (option error) := fun w =>
  let w := set_trace w (trace w ++ [EvClose f]) in
  match f with
  | None => (Some ErrInvalid, w)
  | Some h =>
      match handles w !! h with
      | None => (Some ErrInvalid, w)
      | Some fl =>
          if f_closed fl then (Some ErrClosed, w)
          else (None, set_handles w (<[h := mkFile (f_name fl) true]> (handles w)))
      end
  end.

(** [File.Write] (pointer receiver) on a file opened with [O_APPEND]: the bytes go to the
    end of the file. *)
Definition File_Write (f : option nat) (b : bytes) : IO (Z * option error) := fun w =>
  let w := set_trace w (trace w ++ [EvWrite f b]) in
  match f with
  | None => (0, Some ErrInvalid, w)
  | Some h =>
      match handles w !! h with
      | None => (0, Some ErrInvalid, w)
      | Some fl =>
          if f_closed fl then (0, Some ErrClosed, w)
          else (Z.of_nat (length b), None,
                set_disk w (<[f_name fl := default [] (disk w !! f_name fl) ++ b]> (disk w)))
      end
  end.

(** [time.Now()]. *)
Definition time_Now : IO Z := fun w =>
  (clock w (ticks w), set_ticks (set_trace w (trace w ++ [EvNow])) (S (ticks w))).

(** [runtime.Caller(skip)] on the stack [stk] of the calling goroutine,
    index 0 being the function that calls [runtime.Caller]. *)
Definition runtime_Caller (stk : list Frame) (skip : nat) : IO (Z * string * Z * bool) := fun w =>
  let w := set_trace w (trace w ++ [EvCaller skip]) in
  match stk !! skip with
  | Some fr => (fr_pc fr, fr_file fr, fr_line fr, true, w)
  | None => (0, "", 0, false, w)
  end.

(** [sync.Mutex]. *)
Definition mutex_Lock : M unit := fun m =>
  if mutex (self m) then (Blocked, m)
  else (Ret tt, mkMachine (set_mutex (self m) true)
                          (set_trace (world m) (trace (world m) ++ [EvLock]))).

Definition mutex_Unlock : M unit := fun m =>
  if mutex (self m)
  then (Ret tt, mkMachine (set_mutex (self m) false)
                          (set_trace (world m) (trace (world m) ++ [EvUnlock])))
  else (Panic "sync: unlock of unlocked mutex", m).

(** [fmt.Sprintf("%d", n)]. *)
Definition fmt_d (n : Z) : string := NilZero.string_of_int (Z.to_int n).

(** [time.RFC3339]. *)
Definition time_RFC3339 : string := "2006-01-02T15:04:05Z07:00".

(** [strings.LastIndex(s, sep)] for a separator of one byte [c]: the scan
    [for i := len(s) - 1; i >= 0; i--] of [LastIndexByte]. *)
Fixpoint lastIndexFrom (s : bytes) (c : ascii) (i : nat) : Z :=
  match i with
  | O => -1
  | S j =>
      match s !! j with
      | Some x => if decide (x = c) then Z.of_nat j else lastIndexFrom s c j
      | None => lastIndexFrom s c j
      end
  end.

Definition strings_LastIndex (s : string) (c : ascii) : Z :=
  lastIndexFrom (bytes_of s) c (length (bytes_of s)).

(** ** The package *)

(** [m[k]] on a Go map: the zero value where the key is absent. *)
Definition map_index (m : gmap string Z) (k : string) : Z :=
  default 0 (m !! k).

(** [v, ok := m[k]] on a map that may be nil. *)
Definition map_lookup (m : option (gmap string Z)) (k : string) : option Z :=
  m ≫= λ c, c !! k.

(** The table installed by [Open]. *)
Definition default_levelmap : gmap string Z :=
  <["OFF" := 1]> (<["FATAL" := 2]> (<["ERROR" := 3]> (<["WARN" := 4]>
  (<["INFO" := 5]> (<["DEBUG" := 6]> (<["ALL" := 7]> ∅)))))).

Definition getShortFileName (filename : string) : string :=
  string_of (drop (Z.to_nat (strings_LastIndex filename "/" + 1)) (bytes_of filename)).

(** A value together with the equation that names it, for the recursive
    calls below. *)
Definition inspect {A : Type} (x : A) : {y : A | x = y} := exist _ x eq_refl.

(** The inner loop of [formatHeader]:
    [for i < end && log.prefix[i] != '%' { i++ }]; the result is the final
    [i]. *)
Equations? scanLiteral (p : bytes) (i : nat) : nat by wf (length p - i)%nat lt :=
  scanLiteral p i with inspect (p !! i) := {
    | exist _ (Some c) E => if decide (c = "%"%char) then i else scanLiteral p (S i);
    | exist _ None E => i }.
Proof. apply lookup_lt_Some in E. lia. Qed.

Section Logger.
Context `{rt : GoRuntime}.

Definition getTimeString (timeformat : string) : IO string := fun w =>
  let '(now, w) := time_Now w in
  (time_Format now (if decide (timeformat = "") then time_RFC3339 else timeformat), w).

(** The [switch log.prefix[i]] of [formatHeader]: the bytes appended for
    the directive character [c]. *)
Definition directive (l : SHLogger) (pc : Z) (file : string) (line : Z)
    (category level : string) (c : ascii) : IO bytes := fun w =>
  if (c =? "p")%char then (bytes_of (fmt_d pc), w)
  else if (c =? "F")%char then (bytes_of file, w)
  else if (c =? "f")%char then (bytes_of (getShortFileName file), w)
  else if (c =? "l")%char then (bytes_of (fmt_d line), w)
  else if (c =? "m")%char then (bytes_of (runtime_FuncName pc), w)
  else if (c =? "t")%char then
    let '(t, w) := getTimeString (timeformat l) w in (bytes_of t, w)
  else if (c =? "c")%char then (bytes_of category, w)
  else if (c =? "L")%char then (bytes_of level, w)
  else if (c =? "%")%char then (bytes_of "%", w)
  else ([], w).

(** The outer loop [for i := 0; i < end; { ... }] of [formatHeader], from
    index [i] with the buffer [buf]. *)
Equations? headerLoop (p : bytes) (d : ascii -> IO bytes) (i : nat) (buf : bytes)
    (w : World) : bytes * World by wf (length p - i)%nat lt :=
  headerLoop p d i buf w with decide (i < length p)%nat := {
    | right _ => (buf, w)
    | left _ with inspect (scanLiteral p i) := {
      | exist _ j Ej with inspect (p !! S j) := {
        | exist _ None E =>
            (if decide (i < j)%nat then buf ++ take (j - i) (drop i p) else buf, w)
        | exist _ (Some c) E =>
            let buf := if decide (i < j)%nat then buf ++ take (j - i) (drop i p) else buf in
            let '(s, w') := d c w in
            headerLoop p d (S (S j)) (buf ++ s) w' } } }.
Proof.
  assert (Hge : forall (q : bytes) (k : nat), (k <= scanLiteral q k)%nat).
  { clear. intros q k. funelim (scanLiteral q k); [|lia].
    destruct (decide _) as [|Hne]; [lia|]. specialize (H Hne). lia. }
  specialize (Hge p i). lia.
Qed.

Definition formatHeader (stk : list Frame) (category level : string) (buf : bytes) : M bytes :=
  l ← get_self;
  '(pc, file, line, _) ← liftIO (runtime_Caller stk 2);
  liftIO (headerLoop (bytes_of (prefix l)) (directive l pc file line category level) 0 buf).

Definition checkPrintable (l : SHLogger) (category level : string) : bool :=
  let lv := map_index (levelmap l) level in
  match map_lookup (categories l) category with
  | Some cl => lv <=? cl
  | None => lv <=? deflevel l
  end.

Definition SetPrefix (p : string) : M unit :=
  l ← get_self; put_self (set_prefix l p).

Definition SetTimeFormat (t : string) : M unit :=
  l ← get_self; put_self (set_timeformat l t).

Definition SetLevelMap (lm : gmap string Z) : M unit :=
  l ← get_self; put_self (set_levelmap l lm).

Definition SetDefaultLevel (level : string) : M unit :=
  l ← get_self; put_self (set_deflevel l (map_index (levelmap l) level)).

Definition SetCategory (category level : string) : M unit :=
  l ← get_self;
  match categories l with
  | None => panic "assignment to entry in nil map"
  | Some c =>
      put_self (set_categories l (Some (<[category := map_index (levelmap l) level]> c)))
  end.

Definition Close : M unit :=
  l ← get_self; liftIO (File_Close (out l));; mret tt.

(** [Reopen]; the deferred [Unlock] runs at each of the two returns. *)
Definition Reopen : M (option error) :=
  mutex_Lock;;
  Close;;
  l ← get_self;
  r ← liftIO (os_OpenFile (filename l));
  match r with
  | inr err => mutex_Unlock;; mret (Some err)
  | inl h =>
      l ← get_self; put_self (set_out l (Some h));;
      mutex_Unlock;; mret None
  end.

(** A write of [buf] to [log.out] under the lock:
    [log.mutex.Lock(); defer log.mutex.Unlock(); return log.out.Write(buf)]. *)
Definition lockedWrite (buf : bytes) : M (Z * option error) :=
  mutex_Lock;;
  l ← get_self;
  r ← liftIO (File_Write (out l) buf);
  mutex_Unlock;;
  mret r.

Definition Printf (stk : list Frame) (category level format : string)
    (a : list iface) : M (Z * option error) :=
  l ← get_self;
  if negb (checkPrintable l category level) then mret (0, None)
  else
    buf ← formatHeader stk category level [];
    lockedWrite (buf ++ bytes_of (fmt_Sprintf format a)).

Definition Println (stk : list Frame) (category level : string)
    (a : list iface) : M (Z * option error) :=
  l ← get_self;
  if negb (checkPrintable l category level) then mret (0, None)
  else
    buf ← formatHeader stk category level [];
    lockedWrite (buf ++ bytes_of (fmt_Sprintln a)).

Definition Sprintf (stk : list Frame) (category level format : string)
    (a : list iface) : M string :=
  l ← get_self;
  if negb (checkPrintable l category level) then mret ""
  else
    buf ← formatHeader stk category level [];
    mret (string_of (buf ++ bytes_of (fmt_Sprintf format a))).

Definition Sprintln (stk : list Frame) (category level : string)
    (a : list iface) : M string :=
  l ← get_self;
  if negb (checkPrintable l category level) then mret ""
  else
    buf ← formatHeader stk category level [];
    mret (string_of (buf ++ bytes_of (fmt_Sprintln a))).

(** [Open]: the struct obtained by [new(SHLogger)] has every field at its
    zero value before the assignments. *)
Definition Open (name : string) : IO (SHLogger + error) := fun w =>
  match os_OpenFile name w with
  | (inr err, w) => (inr err, w)
  | (inl h, w) =>
      let l := mkSHLogger name false "" "" (Some h) (Some ∅) ∅ 0 in
      let m := snd ((SetLevelMap default_levelmap;; SetDefaultLevel "WARN")
                      (mkMachine l w)) in
      (inl (self m), world m)
  end.

End Logger.

Section Calls.
Context `{rt : GoRuntime}.

(** A call of an exported method by client code. *)
Inductive Call : Type :=
  | CallClose
  | CallReopen
  | CallSetPrefix (p : string)
  | CallSetTimeFormat (t : string)
  | CallSetLevelMap (lm : gmap string Z)
  | CallSetDefaultLevel (level : string)
  | CallSetCategory (category level : string)
  | CallPrintf (stk : list Frame) (category level format : string) (a : list iface)
  | CallPrintln (stk : list Frame) (category level : string) (a : list iface)
  | CallSprintf (stk : list Frame) (category level format : string) (a : list iface)
  | CallSprintln (stk : list Frame) (category level : string) (a : list iface).

(** The call, its result dropped. *)
Definition exec (c : Call) : M unit :=
  match c with
  | CallClose => Close
  | CallReopen => Reopen;; mret tt
  | CallSetPrefix p => SetPrefix p
  | CallSetTimeFormat t => SetTimeFormat t
  | CallSetLevelMap lm => SetLevelMap lm
  | CallSetDefaultLevel level => SetDefaultLevel level
  | CallSetCategory category level => SetCategory category level
  | CallPrintf stk category level format a => Printf stk category level format a;; mret tt
  | CallPrintln stk category level a => Println stk category level a;; mret tt
  | CallSprintf stk category level format a => Sprintf stk category level format a;; mret tt
  | CallSprintln stk category level a => Sprintln stk category level a;; mret tt
  end.

(** A sequence of calls made one after the other by one goroutine. *)
Fixpoint run (cs : list Call) : M unit :=
  match cs with
  | [] => mret tt
  | c :: cs => exec c;; run cs
  end.

Definition is_SetDefaultLevel (c : Call) : bool :=
  match c with CallSetDefaultLevel _ => true | _ => false end.

Definition is_Reopen (c : Call) : bool :=
  match c with CallReopen => true | _ => false end.

End Calls.

Section Template.
Context `{rt : GoRuntime}.

(** ** The header template, in the words of the specification *)

(** The call context of one log call. *)
Record CallContext : Type := mkCallContext {
  cc_pc : Z;
  cc_file : string;
  cc_line : Z;
  cc_func : string;
  cc_timeformat : string;
  cc_category : string;
  cc_level : string
}.

(** The table of directives: what the character after a [%] stands for.
    The time is read when the directive is met. *)
Definition substitution (ctx : CallContext) (c : ascii) : IO bytes := fun w =>
  match c with
  | "p"%char => (bytes_of (fmt_d (cc_pc ctx)), w)
  | "F"%char => (bytes_of (cc_file ctx), w)
  | "f"%char => (bytes_of (getShortFileName (cc_file ctx)), w)
  | "l"%char => (bytes_of (fmt_d (cc_line ctx)), w)
  | "m"%char => (bytes_of (cc_func ctx), w)
  | "t"%char =>
      let '(now, w) := time_Now w in
      let layout := if decide (cc_timeformat ctx = "") then time_RFC3339
                    else cc_timeformat ctx in
      (bytes_of (time_Format now layout), w)
  | "c"%char => (bytes_of (cc_category ctx), w)
  | "L"%char => (bytes_of (cc_level ctx), w)
  | "%"%char => (["%"%char], w)
  | _ => ([], w)
  end.

(** The template read from left to right: a character other than [%] is
    copied; a [%] and the character after it are replaced by what the table
    [d] gives for that character; a [%] at the very end ends the output. *)
Fixpoint render (d : ascii -> IO bytes) (t : bytes) (w : World) : bytes * World :=
  match t with
  | [] => ([], w)
  | c :: t' =>
      if (c =? "%")%char then
        match t' with
        | [] => ([], w)
        | x :: t'' =>
            let '(s, w1) := d x w in
            let '(r, w2) := render d t'' w1 in
            (s ++ r, w2)
        end
      else
        let '(r, w') := render d t' w in (c :: r, w')
  end.

(** The call context that a log call made with the stack [stk] captures:
    the frame two levels above [formatHeader], or zero values when the stack
    is not that deep. *)
Definition callContext (l : SHLogger) (stk : list Frame) (category level : string)
    : CallContext :=
  match stk !! 2%nat with
  | Some fr =>
      mkCallContext (fr_pc fr) (fr_file fr) (fr_line fr) (runtime_FuncName (fr_pc fr))
                    (timeformat l) category level
  | None =>
      mkCallContext 0 "" 0 (runtime_FuncName 0) (timeformat l) category level
  end.

(** The header of a log call, in the words of the specification: the
    call context is captured, then the prefix is rendered in it. *)
Definition header (l : SHLogger) (stk : list Frame) (category level : string)
    (w : World) : bytes * World :=
  render (substitution (callContext l stk category level)) (bytes_of (prefix l))
         (set_trace w (trace w ++ [EvCaller 2])).

End Template.

(** ** The state of the sink and of the world *)

(** The events of a call that touch neither the lock nor the sink. *)
Definition runtime_event (e : Event) : bool :=
  match e with
  | EvCaller _ | EvNow => true
  | _ => false
  end.

(** The logger has a usable sink: [out] points to a file object that is
    not closed. *)
Definition sink_open (l : SHLogger) (w : World) : bool :=
  match out l with
  | Some h =>
      match handles w !! h with
      | Some f => negb (f_closed f)
      | None => false
      end
  | None => false
  end.

(** The world [w] after [n] more readings of the clock, and nothing else. *)
Definition after_clock_reads (n : nat) (w : World) : World :=
  mkWorld (disk w) (handles w) (denied w) (clock w) (ticks w + n)
          (trace w ++ replicate n EvNow).

(** Two loggers with the same configuration: they may differ in the file
    name, the lock and the sink only. *)
Definition same_config (l1 l2 : SHLogger) : Prop :=
  prefix l1 = prefix l2 /\ timeformat l1 = timeformat l2 /\
  categories l1 = categories l2 /\ levelmap l1 = levelmap l2 /\
  deflevel l1 = deflevel l2.

(** Two worlds with the same clock: they may differ in the disk, the open
    files, the denied paths and the trace. *)
Definition same_clock (w1 w2 : World) : Prop :=
  clock w1 = clock w2 /\ ticks w1 = ticks w2.

(** The table of file objects after [Close] of the file object [o]. *)
Definition closed_handles (o : option nat) (hs : list File) : list File :=
  match o with
  | Some h =>
      match hs !! h with
      | Some f => if f_closed f then hs else <[h := mkFile (f_name f) true]> hs
      | None => hs
      end
  | None => hs
  end.

(** The disk after [os.OpenFile] of [name] with [O_CREATE] succeeded. *)
Definition created (name : string) (d : gmap string bytes) : gmap string bytes :=
  match d !! name with
  | Some _ => d
  | None => <[name := []]> d
  end.

(** ** Concrete inputs *)

(** A runtime to run the package on: arguments are integers, the body
    formatters print a fixed text, the clock prints as its layout. *)
Definition demo_runtime : GoRuntime := {|
  iface := Z;
  fmt_Sprintf := fun format _ => format;
  fmt_Sprintln := fun _ => String "010"%char EmptyString;
  time_Format := fun _ layout => layout;
  runtime_FuncName := fun _ => "main.main"
|}.

Definition demo_world : World :=
  mkWorld ∅ [] ∅ (fun n => Z.of_nat n) 0 [].

(** The stack inside [formatHeader]: itself, the exported method, the
    client code. *)
Definition demo_stack : list Frame :=
  [mkFrame 4096 "shlog4go.go" 95; mkFrame 4200 "shlog4go.go" 150;
   mkFrame 4242 "/home/u/main.go" 17].

(** The arguments [5] of a call such as [Printf(c, l, format, 5)]. *)
Definition demo_args : list (@iface demo_runtime) := [5].

(** The logger that [Open] returns in [demo_world]. *)
Definition demo_machine : Machine :=
  match Open "app.log" demo_world with
  | (inl l, w) => mkMachine l w
  | (inr _, w) => mkMachine (mkSHLogger "" false "" "" None None ∅ 0) w
  end.

(** The claim C9 as it is worded: after a threshold is set from an unknown
    name, the only levels that still pass are those that resolve to 0. *)
Definition C9_only_zero_levels_pass : Prop :=
  forall (m : Machine) (category name level : string) (c : gmap string Z),
    levelmap (self m) !! name = None ->
    categories (self m) = Some c ->
    checkPrintable (self (snd (SetCategory category name m))) category level = true ->
    map_index (levelmap (self m)) level = 0.

(** A table may give a level a negative severity; such a level passes a
    threshold of 0 and does not resolve to 0. *)
Definition negative_machine : Machine :=
  snd (SetLevelMap (<["NEG" := -1]> (<["WARN" := 4]> ∅)) demo_machine).


(** [demo_machine] with the prefix of the specification's example. *)
Definition prefixed_machine : Machine :=
  snd (SetPrefix "[%L] %c: " demo_machine).


(** ** Further definitions for call sequences *)

(** The zero value of the struct: an [SHLogger] that [Open] did not make. *)
Definition zero_SHLogger : SHLogger :=
  mkSHLogger "" false "" "" None None ∅ 0.

Section CallKinds.
Context `{rt : GoRuntime}.

(** The call is a [SetCategory] of the category [category]. *)
Definition is_SetCategory_of (category : string) (c : Call) : bool :=
  match c with
  | CallSetCategory c' _ => bool_decide (c' = category)
  | _ => false
  end.

End CallKinds.


(** Every file of the disk [d] is on the disk [d'], with what it held as
    the beginning of what it holds. *)
Definition disk_extends (d d' : gmap string bytes) : Prop :=
  forall name b, d !! name = Some b -> exists b', d' !! name = Some (b ++ b').

(** A logger as client code holds it between two calls when no other
    goroutine is inside a call: the lock is free and the map of categories
    is allocated. *)
Definition ready (l : SHLogger) : Prop :=
  mutex l = false /\ is_Some (categories l).

(** The lock discipline of a run of events, from the state [held] of the
    lock: the lock is not taken twice nor released when free, and a write
    to a file or an open of a file happens with the lock held.  The result
    is the state of the lock at the end, or [None] when the discipline is
    broken. *)
Fixpoint lock_disciplined (held : bool) (evs : list Event) : option bool :=
  match evs with
  | [] => Some held
  | EvLock :: evs => if held then None else lock_disciplined true evs
  | EvUnlock :: evs => if held then lock_disciplined false evs else None
  | EvWrite _ _ :: evs => if held then lock_disciplined held evs else None
  | EvOpenFile _ :: evs => if held then lock_disciplined held evs else None
  | (EvCaller _ | EvNow | EvClose _) :: evs => lock_disciplined held evs
  end.

(** No file object is open but the sink of the logger. *)
Definition only_out_open (m : Machine) : Prop :=
  forall h f, handles (world m) !! h = Some f -> f_closed f = false ->
              out (self m) = Some h.


(** The template that stands for the text [s]: every [%] is doubled. *)
Fixpoint escape (s : bytes) : bytes :=
  match s with
  | [] => []
  | c :: s' =>
      if (c =? "%")%char then "%"%char :: "%"%char :: escape s' else c :: escape s'
  end.

(** The characters that the [switch] of [formatHeader] inspects, in the
    order of the template: those that follow a [%] that opens a
    directive. *)
Fixpoint directives (t : bytes) : list ascii :=
  match t with
  | [] => []
  | c :: t' =>
      if (c =? "%")%char then
        match t' with
        | [] => []
        | x :: t'' => x :: directives t''
        end
      else directives t'
  end.

Section Transcript.
Context `{rt : GoRuntime}.

Definition is_Close_or_Reopen (c : Call) : bool :=
  match c with CallClose | CallReopen => true | _ => false end.

(** The value that a call returned, or [d] when it did not return. *)
Definition returned {A : Type} (d : A) (o : Outcome A) : A :=
  match o with Ret a => a | _ => d end.

(** What the string variant of a writing call returns in the state [m]:
    [Sprintf] for [Printf], [Sprintln] for [Println]; nothing for the other
    calls. *)
Definition emitted (c : Call) (m : Machine) : bytes :=
  match c with
  | CallPrintf stk category level format a =>
      bytes_of (returned "" (fst (Sprintf stk category level format a m)))
  | CallPrintln stk category level a =>
      bytes_of (returned "" (fst (Sprintln stk category level a m)))
  | _ => []
  end.

(** The same for a sequence of calls, each in the state the calls before
    it have left. *)
Fixpoint transcript (cs : list Call) (m : Machine) : bytes :=
  match cs with
  | [] => []
  | c :: cs => emitted c m ++ transcript cs (snd (exec c m))
  end.

End Transcript.

(** [demo_machine] while another goroutine holds the lock. *)
Definition locked_machine : Machine :=
  mkMachine (set_mutex (self demo_machine) true) (world demo_machine).

(** [demo_machine] with an override for the category [db]. *)
Definition override_machine : Machine :=
  snd (SetCategory "db" "INFO" demo_machine).

(** A session of a client: configuration, writes that pass and writes that
    are filtered. *)
Definition demo_session : list (@Call demo_runtime) :=
  [CallSetPrefix "%L %c: ";
   CallPrintf demo_stack "app" "ERROR" "disk full" demo_args;
   CallSetCategory "net" "ALL";
   CallPrintf demo_stack "app" "DEBUG" "retry" demo_args;
   CallPrintln demo_stack "net" "DEBUG" demo_args;
   CallSetLevelMap (<["LOUD" := 1]> ∅);
   CallSprintf demo_stack "app" "LOUD" "ok" demo_args].
(** * Properties *)

(** Unfolds the monad of a method call down to pairs and matches. *)
Ltac unfold_M :=
  unfold mbind, mret, M_bind, M_ret, liftIO, get_self, put_self, panic in *;
  cbn [fst snd self world] in *.

Section Properties.
Context `{rt : GoRuntime}.

Lemma checkPrintable_override (l : SHLogger) (category level : string) (T : Z) :
  map_lookup (categories l) category = Some T ->
  checkPrintable l category level = (map_index (levelmap l) level <=? T).
Proof. intros H. unfold checkPrintable. now rewrite H. Qed.

Lemma checkPrintable_default (l : SHLogger) (category level : string) :
  map_lookup (categories l) category = None ->
  checkPrintable l category level = (map_index (levelmap l) level <=? deflevel l).
Proof. intros H. unfold checkPrintable. now rewrite H. Qed.

Lemma SetCategory_ok (category name : string) (m : Machine) (c : gmap string Z) :
  categories (self m) = Some c ->
  SetCategory category name m =
    (Ret tt, mkMachine (set_categories (self m)
               (Some (<[category := map_index (levelmap (self m)) name]> c))) (world m)).
Proof. intros H. unfold SetCategory. unfold_M. now rewrite H. Qed.

Lemma SetCategory_nil (category name : string) (m : Machine) :
  categories (self m) = None ->
  SetCategory category name m = (Panic "assignment to entry in nil map", m).
Proof. intros H. unfold SetCategory. unfold_M. now rewrite H. Qed.

Lemma SetCategory_returns (category name : string) (m m' : Machine) :
  SetCategory category name m = (Ret tt, m') ->
  exists c, categories (self m) = Some c /\
    m' = mkMachine (set_categories (self m)
           (Some (<[category := map_index (levelmap (self m)) name]> c))) (world m).
Proof.
  intros H. destruct (categories (self m)) as [c|] eqn:E.
  - rewrite (SetCategory_ok _ _ _ _ E) in H. exists c. split; [done|congruence].
  - rewrite (SetCategory_nil _ _ _ E) in H. discriminate.
Qed.

(** C1. [checkPrintable] answers by the override of the category when the
    category has one ([lv <= T], whatever the default threshold is, also
    right after a [SetCategory]), and by the default threshold when it has
    none ([lv <= deflevel]); [lv] is the severity the level name has in the
    current level table. *)
Theorem C1_filter_rule (l : SHLogger) (category level : string) :
  (forall T, map_lookup (categories l) category = Some T ->
     (checkPrintable l category level = true <-> map_index (levelmap l) level <= T) /\
     (forall d, checkPrintable (set_deflevel l d) category level =
                checkPrintable l category level)) /\
  (map_lookup (categories l) category = None ->
     (checkPrintable l category level = true <->
      map_index (levelmap l) level <= deflevel l)) /\
  (forall m name m', self m = l -> SetCategory category name m = (Ret tt, m') ->
     forall d, checkPrintable (set_deflevel (self m') d) category level =
               (map_index (levelmap l) level <=? map_index (levelmap l) name)).
Proof.
  split; [|split].
  - intros T HT. split.
    + rewrite (checkPrintable_override _ _ _ _ HT). apply Z.leb_le.
    + intros d. unfold checkPrintable, set_deflevel. cbn [categories levelmap deflevel]. now rewrite HT.
  - intros HN. rewrite (checkPrintable_default _ _ _ HN). apply Z.leb_le.
  - intros m name m' <- H d. apply SetCategory_returns in H as (c & Hc & ->).
    unfold checkPrintable, map_lookup. cbn. now rewrite lookup_insert_eq.
Qed.


(** ** The header and the locked write, as one step each *)

Lemma formatHeader_eq (stk : list Frame) (category level : string) (buf : bytes)
    (m : Machine) :
  formatHeader stk category level buf m =
    let '(pc, file, line, _, w) := runtime_Caller stk 2 (world m) in
    let '(b, w') := headerLoop (bytes_of (prefix (self m)))
                      (directive (self m) pc file line category level) 0 buf w in
    (Ret b, mkMachine (self m) w').
Proof.
  unfold formatHeader. unfold_M.
  destruct (runtime_Caller stk 2 (world m)) as [[[[pc file] line] ok] w].
  cbn. now destruct (headerLoop _ _ _ _ _).
Qed.

Lemma formatHeader_self (stk : list Frame) (category level : string) (buf : bytes)
    (m : Machine) :
  exists b w, formatHeader stk category level buf m = (Ret b, mkMachine (self m) w).
Proof.
  rewrite formatHeader_eq.
  destruct (runtime_Caller stk 2 (world m)) as [[[[pc file] line] ok] w].
  destruct (headerLoop _ _ _ _ _) as [b w']. eauto.
Qed.

Lemma set_mutex_twice (l : SHLogger) :
  mutex l = false -> set_mutex (set_mutex l true) false = l.
Proof. destruct l; cbn; now intros ->. Qed.

Lemma lockedWrite_blocked (buf : bytes) (m : Machine) :
  mutex (self m) = true -> lockedWrite buf m = (Blocked, m).
Proof. intros H. unfold lockedWrite, mutex_Lock. unfold_M. now rewrite H. Qed.

Lemma lockedWrite_free (buf : bytes) (m : Machine) :
  mutex (self m) = false ->
  lockedWrite buf m =
    let '(r, w) := File_Write (out (self m)) buf
                     (set_trace (world m) (trace (world m) ++ [EvLock])) in
    (Ret r, mkMachine (self m) (set_trace w (trace w ++ [EvUnlock]))).
Proof.
  intros H. unfold lockedWrite, mutex_Lock, mutex_Unlock. unfold_M. rewrite H. cbn.
  destruct (File_Write _ _ _) as [r w]. cbn. now rewrite set_mutex_twice.
Qed.

(** ** What each call leaves of the receiver *)

Lemma lockedWrite_self (buf : bytes) (m : Machine) :
  self (snd (lockedWrite buf m)) = self m.
Proof.
  destruct (mutex (self m)) eqn:E.
  - now rewrite lockedWrite_blocked.
  - rewrite lockedWrite_free by done. now destruct (File_Write _ _ _).
Qed.

Lemma Printf_self (stk : list Frame) (category level format : string)
    (a : list iface) (m : Machine) :
  self (snd (Printf stk category level format a m)) = self m.
Proof.
  unfold Printf. unfold_M. destruct (checkPrintable _ _ _); cbn; [|done].
  destruct (formatHeader_self stk category level [] m) as (b & w & ->).
  now rewrite lockedWrite_self.
Qed.

Lemma Println_self (stk : list Frame) (category level : string)
    (a : list iface) (m : Machine) :
  self (snd (Println stk category level a m)) = self m.
Proof.
  unfold Println. unfold_M. destruct (checkPrintable _ _ _); cbn; [|done].
  destruct (formatHeader_self stk category level [] m) as (b & w & ->).
  now rewrite lockedWrite_self.
Qed.

Lemma Sprintf_self (stk : list Frame) (category level format : string)
    (a : list iface) (m : Machine) :
  self (snd (Sprintf stk category level format a m)) = self m.
Proof.
  unfold Sprintf. unfold_M. destruct (checkPrintable _ _ _); cbn; [|done].
  now destruct (formatHeader_self stk category level [] m) as (b & w & ->).
Qed.

Lemma Sprintln_self (stk : list Frame) (category level : string)
    (a : list iface) (m : Machine) :
  self (snd (Sprintln stk category level a m)) = self m.
Proof.
  unfold Sprintln. unfold_M. destruct (checkPrintable _ _ _); cbn; [|done].
  now destruct (formatHeader_self stk category level [] m) as (b & w & ->).
Qed.

Lemma Close_eq (m : Machine) :
  Close m = (Ret tt, mkMachine (self m) (snd (File_Close (out (self m)) (world m)))).
Proof. unfold Close. unfold_M. now destruct (File_Close _ _). Qed.

Lemma Reopen_blocked (m : Machine) :
  mutex (self m) = true -> Reopen m = (Blocked, m).
Proof. intros H. unfold Reopen, mutex_Lock. unfold_M. now rewrite H. Qed.

(** [Reopen] with the lock free, step by step: lock, close, open, and then
    either the error with [out] as it was, or the new file in [out]. *)
Lemma Reopen_free (m : Machine) :
  mutex (self m) = false ->
  Reopen m =
    let w1 := set_trace (world m) (trace (world m) ++ [EvLock]) in
    let w2 := snd (File_Close (out (self m)) w1) in
    match os_OpenFile (filename (self m)) w2 with
    | (inr err, w3) =>
        (Ret (Some err), mkMachine (self m) (set_trace w3 (trace w3 ++ [EvUnlock])))
    | (inl h, w3) =>
        (Ret None, mkMachine (set_out (self m) (Some h))
                     (set_trace w3 (trace w3 ++ [EvUnlock])))
    end.
Proof.
  intros H. unfold Reopen, mutex_Lock, mutex_Unlock, Close. unfold_M. rewrite H. cbn.
  destruct (File_Close _ _) as [e w2]. cbn.
  destruct (os_OpenFile _ _) as [[h|err] w3]; cbn.
  - do 2 f_equal. destruct (self m); cbn in *; now subst.
  - now rewrite set_mutex_twice.
Qed.

Lemma exec_deflevel (c : Call) (m : Machine) :
  is_SetDefaultLevel c = false ->
  deflevel (self (snd (exec c m))) = deflevel (self m).
Proof.
  intros Hc. destruct c; try discriminate; cbn [exec].
  - now rewrite Close_eq.
  - unfold_M. destruct (mutex (self m)) eqn:E.
    + now rewrite Reopen_blocked.
    + rewrite Reopen_free by done. cbn.
      now destruct (os_OpenFile _ _) as [[h|err] w3].
  - done.
  - done.
  - done.
  - unfold SetCategory. unfold_M. now destruct (categories (self m)).
  - unfold_M. pose proof (Printf_self stk category level format a m) as H.
    destruct (Printf _ _ _ _ _ _) as [[r| |] m']; cbn in *; now rewrite H.
  - unfold_M. pose proof (Println_self stk category level a m) as H.
    destruct (Println _ _ _ _ _) as [[r| |] m']; cbn in *; now rewrite H.
  - unfold_M. pose proof (Sprintf_self stk category level format a m) as H.
    destruct (Sprintf _ _ _ _ _ _) as [[r| |] m']; cbn in *; now rewrite H.
  - unfold_M. pose proof (Sprintln_self stk category level a m) as H.
    destruct (Sprintln _ _ _ _ _) as [[r| |] m']; cbn in *; now rewrite H.
Qed.

Lemma run_deflevel (cs : list Call) (m : Machine) :
  forallb (fun c => negb (is_SetDefaultLevel c)) cs = true ->
  deflevel (self (snd (run cs m))) = deflevel (self m).
Proof.
  revert m. induction cs as [|c cs IH]; intros m H; [done|].
  cbn in H. apply andb_prop in H as [Hc Hcs]. apply negb_true_iff in Hc.
  cbn [run]. unfold_M. pose proof (exec_deflevel c m Hc) as E.
  destruct (exec c m) as [[[]| |] m']; cbn in *; [|done|done].
  now rewrite IH.
Qed.

(** ** The claims on filtering and configuration *)

(** C3. A write operation whose (category, level) does not pass
    [checkPrintable] returns at once: [Printf] and [Println] give
    [(0, nil)], [Sprintf] and [Sprintln] the empty string, and the whole
    machine (the logger, the disk, the open files, and the trace of calls to
    the runtime, the lock and the sink) is what it was. *)
Theorem C3_filtered_calls_do_nothing (stk : list Frame)
    (category level format : string) (a : list iface) (m : Machine) :
  checkPrintable (self m) category level = false ->
  Printf stk category level format a m = (Ret (0, None), m) /\
  Println stk category level a m = (Ret (0, None), m) /\
  Sprintf stk category level format a m = (Ret "", m) /\
  Sprintln stk category level a m = (Ret "", m).
Proof.
  intros H. unfold Printf, Println, Sprintf, Sprintln. unfold_M.
  now rewrite H.
Qed.

(** C4. A level name absent from the level table resolves to 0, and so
    passes the filter against any positive threshold, be it the override of
    the category or the default. *)
Theorem C4_unknown_level_passes (l : SHLogger) (category level : string) :
  levelmap l !! level = None ->
  map_index (levelmap l) level = 0 /\
  (forall T, map_lookup (categories l) category = Some T -> 0 < T ->
     checkPrintable l category level = true) /\
  (map_lookup (categories l) category = None -> 0 < deflevel l ->
     checkPrintable l category level = true).
Proof.
  intros H. assert (E : map_index (levelmap l) level = 0).
  { unfold map_index. now rewrite H. }
  split; [done|split].
  - intros T HT Hpos. rewrite (checkPrintable_override _ _ _ _ HT), E.
    apply Z.leb_le. lia.
  - intros HN Hpos. rewrite (checkPrintable_default _ _ _ HN), E.
    apply Z.leb_le. lia.
Qed.

(** C5. [SetDefaultLevel name] stores the severity that [name] has in the
    table of that moment; [SetLevelMap] replaces the table and nothing
    else; and whatever calls follow, as long as none is a
    [SetDefaultLevel], the stored threshold stays the one resolved then. *)
Theorem C5_default_level_resolved_once (name : string) (m : Machine) :
  SetDefaultLevel name m =
    (Ret tt, mkMachine (set_deflevel (self m) (map_index (levelmap (self m)) name))
               (world m)) /\
  (forall lm m0, SetLevelMap lm m0 = (Ret tt, mkMachine (set_levelmap (self m0) lm) (world m0))) /\
  (forall lm, deflevel (self (snd ((SetDefaultLevel name;; SetLevelMap lm) m))) =
              map_index (levelmap (self m)) name) /\
  (forall cs, forallb (fun c => negb (is_SetDefaultLevel c)) cs = true ->
     deflevel (self (snd ((SetDefaultLevel name;; run cs) m))) =
     map_index (levelmap (self m)) name).
Proof.
  split; [done|]. split; [done|]. split; [done|].
  intros cs H. unfold SetDefaultLevel at 1. unfold_M.
  now rewrite run_deflevel.
Qed.

(** C6. [SetCategory category name] leaves the filter of every other
    category as it was, for every level: the category is an exact key. *)
Theorem C6_category_exact_match (category name other level : string) (m : Machine) :
  other <> category ->
  checkPrintable (self (snd (SetCategory category name m))) other level =
  checkPrintable (self m) other level.
Proof.
  intros Hne. destruct (categories (self m)) as [c|] eqn:E.
  - rewrite (SetCategory_ok _ _ _ _ E). unfold checkPrintable, map_lookup. cbn.
    rewrite E. cbn. now rewrite lookup_insert_ne.
  - now rewrite (SetCategory_nil _ _ _ E).
Qed.

(** C9 (as amended). A threshold set from a level name that the table does
    not have is 0.  After [SetCategory category name] the category passes
    exactly the levels of severity [<= 0]; after [SetDefaultLevel name] so
    does every category without an override.  Levels of positive severity
    are filtered out; and when every registered severity is positive, as in
    the table that [Open] installs, the levels that still pass are exactly
    the unregistered names. *)
Theorem C9_unknown_threshold_is_zero (category name : string) (m : Machine) :
  levelmap (self m) !! name = None ->
  (forall c, categories (self m) = Some c ->
     let l' := self (snd (SetCategory category name m)) in
     map_lookup (categories l') category = Some 0 /\
     (forall level, checkPrintable l' category level = true <->
                    map_index (levelmap l') level <= 0) /\
     (forall level, 0 < map_index (levelmap l') level ->
                    checkPrintable l' category level = false) /\
     ((forall k v, levelmap l' !! k = Some v -> 0 < v) ->
      forall level, checkPrintable l' category level = true <->
                    levelmap l' !! level = None)) /\
  (let l' := self (snd (SetDefaultLevel name m)) in
   deflevel l' = 0 /\
   forall other, map_lookup (categories l') other = None ->
     (forall level, checkPrintable l' other level = true <->
                    map_index (levelmap l') level <= 0) /\
     (forall level, 0 < map_index (levelmap l') level ->
                    checkPrintable l' other level = false) /\
     ((forall k v, levelmap l' !! k = Some v -> 0 < v) ->
      forall level, checkPrintable l' other level = true <->
                    levelmap l' !! level = None)).
Proof.
  intros Hname.
  assert (E0 : map_index (levelmap (self m)) name = 0).
  { unfold map_index. now rewrite Hname. }
  assert (Hpos : forall lm : gmap string Z,
            (forall k v, lm !! k = Some v -> 0 < v) ->
            forall level, map_index lm level <= 0 <-> lm !! level = None).
  { intros lm Hlm level. unfold map_index.
    destruct (lm !! level) as [v|] eqn:E; cbn.
    - specialize (Hlm _ _ E). split; [lia|discriminate].
    - split; [done|lia]. }
  split.
  - intros c Hc. rewrite (SetCategory_ok _ _ _ _ Hc), E0. cbn.
    assert (HT : map_lookup (Some (<[category := 0]> c)) category = Some 0).
    { unfold map_lookup. cbn. apply lookup_insert_eq. }
    assert (Hiff : forall level,
              checkPrintable (set_categories (self m) (Some (<[category := 0]> c)))
                category level = true <-> map_index (levelmap (self m)) level <= 0).
    { intros level. rewrite (checkPrintable_override _ _ _ 0) by exact HT.
      apply Z.leb_le. }
    split; [exact HT|]. split; [exact Hiff|]. split.
    + intros level Hlv. apply not_true_is_false. rewrite Hiff. lia.
    + intros Hlm level. rewrite Hiff. now apply Hpos.
  - unfold SetDefaultLevel. unfold_M. rewrite E0. split; [done|]. intros other Hother.
    assert (Hiff : forall level,
              checkPrintable (set_deflevel (self m) 0) other level = true <->
              map_index (levelmap (self m)) level <= 0).
    { intros level. rewrite (checkPrintable_default _ _ _ Hother). apply Z.leb_le. }
    split; [exact Hiff|]. split.
    + intros level Hlv. cbn [levelmap set_deflevel] in Hlv.
      apply not_true_is_false. rewrite Hiff. lia.
    + intros Hlm level. rewrite Hiff. now apply Hpos.
Qed.

(** ** Strings and bytes *)

Lemma string_of_bytes_of (s : string) : string_of (bytes_of s) = s.
Proof. apply string_of_list_ascii_of_string. Qed.

Lemma bytes_of_string_of (b : bytes) : bytes_of (string_of b) = b.
Proof. apply list_ascii_of_string_of_list_ascii. Qed.

Lemma bytes_of_app (s t : string) : bytes_of (s +:+ t) = bytes_of s ++ bytes_of t.
Proof.
  unfold bytes_of. induction s as [|c s IH]; [reflexivity|].
  change (String c s +:+ t) with (String c (s +:+ t)). cbn. now f_equal.
Qed.

(** ** The two loops of [formatHeader] *)

Lemma drop_S_tail {A} (l : list A) (j : nat) (x : A) (rest : list A) :
  drop j l = x :: rest -> drop (S j) l = rest.
Proof.
  intros H. replace (S j) with (j + 1)%nat by lia.
  rewrite <- (drop_drop l 1 j), H. reflexivity.
Qed.

(** Where the inner loop stops: after a run without [%], at the end of the
    template or on a [%]. *)
Lemma scanLiteral_split (p : bytes) (i : nat) :
  exists lit,
    ("%"%char ∉ lit) /\
    scanLiteral p i = (i + length lit)%nat /\
    drop i p = lit ++ drop (scanLiteral p i) p /\
    (drop (scanLiteral p i) p = [] \/
     exists rest, drop (scanLiteral p i) p = "%"%char :: rest).
Proof.
  funelim (scanLiteral p i).
  - destruct (decide (c = "%"%char)) as [->|Hne].
    + exists []. split; [apply not_elem_of_nil|]. split; [cbn; lia|].
      split; [done|]. right. exists (drop (S i) p).
      now apply drop_S.
    + destruct (H Hne) as (lit & Hlit & Hj & Hd & Hend).
      exists (c :: lit). split; [|split; [|split]].
      * rewrite not_elem_of_cons. split; [congruence|done].
      * rewrite Hj. cbn. lia.
      * rewrite (drop_S p c i E). cbn. now rewrite <- Hd.
      * exact Hend.
  - exists []. split; [apply not_elem_of_nil|]. split; [cbn; lia|].
    split; [done|]. left. apply drop_ge. now apply lookup_ge_None.
Qed.

Lemma render_literal (d : ascii -> IO bytes) (lit t : bytes) (w : World) :
  "%"%char ∉ lit ->
  render d (lit ++ t) w = let '(r, w') := render d t w in (lit ++ r, w').
Proof.
  induction lit as [|c lit IH]; intros H; cbn [app render].
  - now destruct (render d t w).
  - apply not_elem_of_cons in H as [Hc Hlit].
    assert ((c =? "%")%char = false) as -> by (apply Ascii.eqb_neq; congruence).
    rewrite (IH Hlit). now destruct (render d t w).
Qed.

(** The literal run that the outer loop appends: [log.prefix[lasti:i]] when
    [i > lasti]. *)
Lemma headerLoop_buf (p : bytes) (i : nat) (buf lit : bytes) :
  scanLiteral p i = (i + length lit)%nat ->
  drop i p = lit ++ drop (scanLiteral p i) p ->
  (if decide (i < scanLiteral p i)%nat
   then buf ++ take (scanLiteral p i - i) (drop i p) else buf) = buf ++ lit.
Proof.
  intros Hj Hd. rewrite Hd. replace (scanLiteral p i - i)%nat with (length lit) by lia.
  rewrite take_app_length. destruct (decide _) as [|Hn]; [done|].
  assert (lit = []) as -> by (apply length_zero_iff_nil; lia).
  now rewrite app_nil_r.
Qed.

(** The outer loop from index [i] appends to the buffer what [render] makes
    of the rest of the template. *)
Lemma headerLoop_render (p : bytes) (d : ascii -> IO bytes) (i : nat) (buf : bytes)
    (w : World) :
  headerLoop p d i buf w =
    let '(r, w') := render d (drop i p) w in (buf ++ r, w').
Proof.
  funelim (headerLoop p d i buf w).
  - (* [i] is past the end *)
    rewrite drop_ge by lia. cbn. now rewrite app_nil_r.
  - (* the directive character [c] at index [S j] *)
    destruct (scanLiteral_split p i) as (lit & Hlit & Hj & Hd & Hend).
    rewrite (headerLoop_buf p i buf lit Hj Hd) in *.
    assert (Hp : drop (scanLiteral p i) p =
                 "%"%char :: c :: drop (S (S (scanLiteral p i))) p).
    { destruct Hend as [Hnil|[rest Hrest]].
      - pose proof (lookup_lt_Some _ _ _ E) as Hlt.
        apply (f_equal length) in Hnil. rewrite length_drop in Hnil. cbn in Hnil. lia.
      - rewrite Hrest. f_equal.
        rewrite <- (drop_S_tail _ _ _ _ Hrest). now apply drop_S. }
    rewrite Hd, render_literal, Hp by done. cbn [render]. cbn.
    destruct (d c w) as [s w1]. rewrite H.
    destruct (render d _ w1) as [r w2]. now rewrite <- !app_assoc.
  - (* the template ends at or right after index [j] *)
    destruct (scanLiteral_split p i) as (lit & Hlit & Hj & Hd & Hend).
    rewrite (headerLoop_buf p i buf lit Hj Hd).
    rewrite Hd, render_literal by done.
    destruct Hend as [->|[rest Hrest]]; [cbn; now rewrite app_nil_r|].
    assert (rest = []) as ->.
    { rewrite <- (drop_S_tail _ _ _ _ Hrest). apply drop_ge. now apply lookup_ge_None. }
    rewrite Hrest. cbn. now rewrite app_nil_r.
Qed.

(** ** The short file name *)

Lemma lastIndexFrom_none (s : bytes) (c : ascii) (i : nat) :
  c ∉ s -> lastIndexFrom s c i = -1.
Proof.
  intros H. induction i as [|j IH]; cbn; [done|].
  destruct (s !! j) as [x|] eqn:E; [|done].
  destruct (decide (x = c)) as [->|]; [|done].
  exfalso. apply H. now apply list_elem_of_lookup_2 in E.
Qed.

Lemma lastIndexFrom_last (a b : bytes) (c : ascii) (i : nat) :
  c ∉ b -> (i <= length b)%nat ->
  lastIndexFrom (a ++ c :: b) c (S (length a + i)) = Z.of_nat (length a).
Proof.
  intros H. induction i as [|i IH]; intros Hi.
  - rewrite Nat.add_0_r. cbn [lastIndexFrom].
    rewrite list_lookup_middle by done. now rewrite decide_True.
  - cbn [lastIndexFrom].
    replace (length a + S i)%nat with (length (a ++ [c]) + i)%nat
      by (rewrite length_app; cbn; lia).
    rewrite (cons_middle c a b), app_assoc, lookup_app_r by lia.
    replace (length (a ++ [c]) + i - length (a ++ [c]))%nat with i by lia.
    destruct (b !! i) as [x|] eqn:E.
    + destruct (decide (x = c)) as [->|].
      * exfalso. apply H. now apply list_elem_of_lookup_2 in E.
      * rewrite <- app_assoc, <- cons_middle.
        replace (length (a ++ [c]) + i)%nat with (S (length a + i))
          by (rewrite length_app; cbn; lia).
        apply IH. lia.
    + apply lookup_ge_None in E. lia.
Qed.

(** C8. [getShortFileName] returns the whole path when the path has no
    [/], and otherwise what follows the last [/]; the directive [%f]
    renders the file of the call site through it. *)
Theorem C8_short_file_name :
  (forall file, "/"%char ∉ bytes_of file ->
     strings_LastIndex file "/" = -1 /\ getShortFileName file = file) /\
  (forall dir base, "/"%char ∉ bytes_of base ->
     strings_LastIndex (dir +:+ "/" +:+ base) "/" = Z.of_nat (String.length dir) /\
     getShortFileName (dir +:+ "/" +:+ base) = base) /\
  (forall l pc file line category level w,
     directive l pc file line category level "f" w =
       (bytes_of (getShortFileName file), w)) /\
  (forall stk category level buf m,
     prefix (self m) = "%f" ->
     fst (formatHeader stk category level buf m) =
       Ret (buf ++ bytes_of (getShortFileName
                               (from_option fr_file "" (stk !! 2%nat))))).
Proof.
  split; [|split; [|split]].
  - intros file H. unfold getShortFileName, strings_LastIndex.
    rewrite lastIndexFrom_none by done. split; [done|].
    cbn. apply string_of_bytes_of.
  - intros dir base H.
    assert (E : strings_LastIndex (dir +:+ "/" +:+ base) "/" =
                Z.of_nat (length (bytes_of dir))).
    { unfold strings_LastIndex. rewrite !bytes_of_app. cbn [bytes_of list_ascii_of_string app].
      rewrite length_app. cbn [length].
      replace (length (bytes_of dir) + S (length (bytes_of base)))%nat
        with (S (length (bytes_of dir) + length (bytes_of base))) by lia.
      now apply lastIndexFrom_last. }
    split.
    + rewrite E. f_equal. unfold bytes_of. clear. induction dir; cbn; congruence.
    + unfold getShortFileName. rewrite E, !bytes_of_app.
      replace (Z.to_nat (Z.of_nat (length (bytes_of dir)) + 1))
        with (length (bytes_of dir ++ ["/"%char])) by (rewrite length_app; cbn; lia).
      cbn [bytes_of list_ascii_of_string app].
      replace (bytes_of dir ++ "/"%char :: bytes_of base)
        with ((bytes_of dir ++ ["/"%char]) ++ bytes_of base)
        by (now rewrite <- app_assoc).
      rewrite drop_app_length.
      apply string_of_bytes_of.
  - reflexivity.
  - intros stk category level buf m Hp. rewrite formatHeader_eq, Hp.
    unfold runtime_Caller. destruct (stk !! 2%nat) as [fr|]; cbn [from_option].
    + rewrite headerLoop_render. cbn. now rewrite app_nil_r.
    + rewrite headerLoop_render. cbn. now rewrite ?app_nil_r.
Qed.

(** ** The header template *)

(** The [switch] of [formatHeader] is the table of directives. *)
Lemma directive_substitution (l : SHLogger) (pc : Z) (file : string) (line : Z)
    (category level : string) (c : ascii) (w : World) :
  directive l pc file line category level c w =
  substitution (mkCallContext pc file line (runtime_FuncName pc) (timeformat l)
                              category level) c w.
Proof. destruct c as [[] [] [] [] [] [] [] []]; reflexivity. Qed.

Lemma render_percent (d : ascii -> IO bytes) (x : ascii) (t : bytes) (w : World) :
  render d ("%"%char :: x :: t) w =
    let '(s, w1) := d x w in
    let '(r, w2) := render d t w1 in (s ++ r, w2).
Proof. reflexivity. Qed.

Lemma render_other (d : ascii -> IO bytes) (c : ascii) (t : bytes) (w : World) :
  c <> "%"%char ->
  render d (c :: t) w = let '(r, w') := render d t w in (c :: r, w').
Proof.
  intros H. cbn [render].
  now assert ((c =? "%")%char = false) as -> by (now apply Ascii.eqb_neq).
Qed.

Lemma render_ext (d d' : ascii -> IO bytes) (t : bytes) :
  (forall c w, d c w = d' c w) ->
  forall w, render d t w = render d' t w.
Proof.
  intros Hd.
  assert (H : (forall w, render d t w = render d' t w) /\
              (forall c w, render d (c :: t) w = render d' (c :: t) w)).
  { induction t as [|x t [IH1 IH2]].
    - split; [done|]. intros c w. cbn. now destruct (c =? "%")%char.
    - split; [exact (IH2 x)|]. intros c w.
      destruct (decide (c = "%"%char)) as [->|Hc].
      + rewrite (render_percent d), (render_percent d'), Hd.
        destruct (d' x w) as [s w1]. now rewrite IH1.
      + rewrite (render_other d c), (render_other d' c) by done. now rewrite IH2. }
  apply H.
Qed.

Lemma formatHeader_render (stk : list Frame) (category level : string) (buf : bytes)
    (m : Machine) :
  formatHeader stk category level buf m =
    let w := set_trace (world m) (trace (world m) ++ [EvCaller 2]) in
    let '(r, w') := render (substitution (callContext (self m) stk category level))
                      (bytes_of (prefix (self m))) w in
    (Ret (buf ++ r), mkMachine (self m) w').
Proof.
  rewrite formatHeader_eq. unfold runtime_Caller, callContext.
  destruct (stk !! 2%nat) as [fr|]; rewrite headerLoop_render, drop_0;
    (erewrite render_ext; [|intros c w0; apply directive_substitution]);
    now destruct (render _ _ _).
Qed.

(** C2. [formatHeader] renders the prefix as the specification says: runs
    without [%] are copied, a [%] and the character after it are replaced by
    the entry of the directive table ([%%] by one [%], an unknown character
    by nothing), and a [%] at the very end ends the header.  A template
    without [%] is rendered as it is, and ["[%L] %c: "] with level [WARN]
    and category [db] gives ["[WARN] db: "]. *)
Theorem C2_render_template :
  (forall stk category level buf m,
     formatHeader stk category level buf m =
       let w := set_trace (world m) (trace (world m) ++ [EvCaller 2]) in
       let '(r, w') := render (substitution (callContext (self m) stk category level))
                         (bytes_of (prefix (self m))) w in
       (Ret (buf ++ r), mkMachine (self m) w')) /\
  (forall d lit buf w, "%"%char ∉ lit ->
     headerLoop lit d 0 buf w = (buf ++ lit, w)) /\
  (forall d lit buf w, "%"%char ∉ lit ->
     headerLoop (lit ++ ["%"%char]) d 0 buf w = (buf ++ lit, w)) /\
  (forall d lit c rest buf w, "%"%char ∉ lit ->
     headerLoop (lit ++ "%"%char :: c :: rest) d 0 buf w =
       let '(s, w1) := d c w in headerLoop rest d 0 (buf ++ lit ++ s) w1) /\
  (forall l pc file line category level w,
     directive l pc file line category level "p" w = (bytes_of (fmt_d pc), w) /\
     directive l pc file line category level "F" w = (bytes_of file, w) /\
     directive l pc file line category level "f" w = (bytes_of (getShortFileName file), w) /\
     directive l pc file line category level "l" w = (bytes_of (fmt_d line), w) /\
     directive l pc file line category level "m" w = (bytes_of (runtime_FuncName pc), w) /\
     directive l pc file line category level "t" w =
       (let '(t, w') := getTimeString (timeformat l) w in (bytes_of t, w')) /\
     directive l pc file line category level "c" w = (bytes_of category, w) /\
     directive l pc file line category level "L" w = (bytes_of level, w) /\
     directive l pc file line category level "%" w = (bytes_of "%", w) /\
     (forall c : ascii,
        c ∉ ["p"; "F"; "f"; "l"; "m"; "t"; "c"; "L"; "%"]%char ->
        directive l pc file line category level c w = ([], w))) /\
  (forall stk m, prefix (self m) = "[%L] %c: " ->
     fst (formatHeader stk "db" "WARN" [] m) = Ret (bytes_of "[WARN] db: ")).
Proof.
  split; [exact formatHeader_render|].
  split; [|split; [|split; [|split]]].
  - intros d lit buf w H. rewrite headerLoop_render, drop_0.
    rewrite <- (app_nil_r lit) at 1. rewrite render_literal by done.
    cbn. now rewrite app_nil_r.
  - intros d lit buf w H. rewrite headerLoop_render, drop_0.
    rewrite render_literal by done. cbn. now rewrite app_nil_r.
  - intros d lit c rest buf w H. rewrite headerLoop_render, drop_0.
    rewrite render_literal by done. cbn [render]. cbn.
    destruct (d c w) as [s w1]. rewrite headerLoop_render, drop_0.
    destruct (render d rest w1) as [r w2]. now rewrite <- !app_assoc.
  - intros l pc file line category level w.
    repeat (split; [reflexivity|]).
    intros c Hc. unfold directive.
    repeat match goal with
           | |- context [(c =? ?x)%char] =>
               destruct (Ascii.eqb_spec c x) as [->|_];
               [exfalso; apply Hc; set_solver|]
           end.
    reflexivity.
  - intros stk m Hp. rewrite formatHeader_render, Hp. cbn.
    unfold callContext. now destruct (stk !! 2%nat).
Qed.

(** ** What rendering does to the world *)

Lemma after_clock_reads_0 (w : World) : after_clock_reads 0 w = w.
Proof.
  destruct w. unfold after_clock_reads. cbn. now rewrite Nat.add_0_r, app_nil_r.
Qed.

Lemma after_clock_reads_add (n k : nat) (w : World) :
  after_clock_reads k (after_clock_reads n w) = after_clock_reads (n + k) w.
Proof.
  unfold after_clock_reads. cbn. f_equal; [lia|].
  now rewrite replicate_add, app_assoc.
Qed.

Lemma substitution_world (ctx : CallContext) (c : ascii) (w : World) :
  exists n, snd (substitution ctx c w) = after_clock_reads n w.
Proof.
  destruct (decide (c = "t"%char)) as [->|Hc].
  - exists 1%nat. cbn. unfold after_clock_reads, set_ticks, set_trace. cbn.
    f_equal. lia.
  - exists 0%nat. rewrite after_clock_reads_0.
    destruct c as [[] [] [] [] [] [] [] []]; try reflexivity. now contradict Hc.
Qed.

(** An induction scheme that follows [render]: the empty template, a lone
    [%], a directive, and a literal character. *)
Lemma render_induction (P : bytes -> Prop) :
  P [] ->
  P ["%"%char] ->
  (forall x t, P t -> P ("%"%char :: x :: t)) ->
  (forall c t, c <> "%"%char -> P t -> P (c :: t)) ->
  forall t, P t.
Proof.
  intros Hnil Hend Hdir Hlit t.
  assert (H : P t /\ forall c, P (c :: t)).
  { induction t as [|x t [IH1 IH2]].
    - split; [done|]. intros c. destruct (decide (c = "%"%char)) as [->|Hc]; auto.
    - split; [apply IH2|]. intros c.
      destruct (decide (c = "%"%char)) as [->|Hc]; auto. }
  apply H.
Qed.

Lemma render_world (ctx : CallContext) (t : bytes) (w : World) :
  exists n, snd (render (substitution ctx) t w) = after_clock_reads n w.
Proof.
  revert w. induction t as [| |x t IH|c t Hc IH] using render_induction; intros w.
  - exists 0%nat. now rewrite after_clock_reads_0.
  - exists 0%nat. now rewrite after_clock_reads_0.
  - rewrite render_percent.
    destruct (substitution_world ctx x w) as [n Hn].
    destruct (substitution ctx x w) as [s w1]. cbn in Hn. subst w1.
    destruct (IH (after_clock_reads n w)) as [k Hk].
    destruct (render _ t _) as [r w2]. cbn in *. subst w2.
    exists (n + k)%nat. apply after_clock_reads_add.
  - rewrite render_other by done. destruct (IH w) as [n Hn].
    destruct (render _ t w) as [r w']. now exists n.
Qed.

Lemma substitution_same_clock (ctx : CallContext) (c : ascii) (w1 w2 : World) :
  same_clock w1 w2 ->
  fst (substitution ctx c w1) = fst (substitution ctx c w2) /\
  same_clock (snd (substitution ctx c w1)) (snd (substitution ctx c w2)).
Proof.
  intros [Hc Ht]. destruct (decide (c = "t"%char)) as [->|Hne].
  - cbn. rewrite Hc, Ht. split; [done|]. split; cbn; congruence.
  - destruct c as [[] [] [] [] [] [] [] []];
      try (split; [reflexivity|split; assumption]). now contradict Hne.
Qed.

(** The rendered bytes depend on the world through the clock only. *)
Lemma render_same_clock (ctx : CallContext) (t : bytes) (w1 w2 : World) :
  same_clock w1 w2 ->
  fst (render (substitution ctx) t w1) = fst (render (substitution ctx) t w2) /\
  same_clock (snd (render (substitution ctx) t w1)) (snd (render (substitution ctx) t w2)).
Proof.
  revert w1 w2.
  induction t as [| |x t IH|c t Hc IH] using render_induction; intros w1 w2 H.
  - done.
  - done.
  - rewrite !render_percent.
    destruct (substitution_same_clock ctx x w1 w2 H) as [Hs Hw].
    destruct (substitution ctx x w1) as [s1 w1'], (substitution ctx x w2) as [s2 w2'].
    cbn in Hs, Hw. subst s2. destruct (IH _ _ Hw) as [Hr Hw'].
    destruct (render _ t w1') as [r1 v1], (render _ t w2') as [r2 v2].
    cbn in *. now subst.
  - rewrite !render_other by done. destruct (IH _ _ H) as [Hr Hw'].
    destruct (render _ t w1) as [r1 v1], (render _ t w2) as [r2 v2].
    cbn in *. now subst.
Qed.

(** ** The four write operations, as one step each *)

Lemma formatHeader_header (stk : list Frame) (category level : string) (m : Machine) :
  formatHeader stk category level [] m =
    (Ret (fst (header (self m) stk category level (world m))),
     mkMachine (self m) (snd (header (self m) stk category level (world m)))).
Proof.
  rewrite formatHeader_render. unfold header. cbn zeta.
  now destruct (render _ _ _).
Qed.

Lemma header_world (l : SHLogger) (stk : list Frame) (category level : string)
    (w : World) :
  exists n, snd (header l stk category level w) =
            after_clock_reads n (set_trace w (trace w ++ [EvCaller 2])).
Proof. apply render_world. Qed.

Lemma Sprintf_eq (stk : list Frame) (category level format : string)
    (a : list iface) (m : Machine) :
  Sprintf stk category level format a m =
    if checkPrintable (self m) category level
    then (Ret (string_of (fst (header (self m) stk category level (world m)) ++
                          bytes_of (fmt_Sprintf format a))),
          mkMachine (self m) (snd (header (self m) stk category level (world m))))
    else (Ret "", m).
Proof.
  unfold Sprintf. unfold_M. destruct (checkPrintable _ _ _); cbn; [|done].
  now rewrite formatHeader_header.
Qed.

Lemma Sprintln_eq (stk : list Frame) (category level : string)
    (a : list iface) (m : Machine) :
  Sprintln stk category level a m =
    if checkPrintable (self m) category level
    then (Ret (string_of (fst (header (self m) stk category level (world m)) ++
                          bytes_of (fmt_Sprintln a))),
          mkMachine (self m) (snd (header (self m) stk category level (world m))))
    else (Ret "", m).
Proof.
  unfold Sprintln. unfold_M. destruct (checkPrintable _ _ _); cbn; [|done].
  now rewrite formatHeader_header.
Qed.

Lemma Printf_eq (stk : list Frame) (category level format : string)
    (a : list iface) (m : Machine) :
  Printf stk category level format a m =
    if checkPrintable (self m) category level
    then lockedWrite (fst (header (self m) stk category level (world m)) ++
                      bytes_of (fmt_Sprintf format a))
           (mkMachine (self m) (snd (header (self m) stk category level (world m))))
    else (Ret (0, None), m).
Proof.
  unfold Printf. unfold_M. destruct (checkPrintable _ _ _); cbn; [|done].
  now rewrite formatHeader_header.
Qed.

Lemma Println_eq (stk : list Frame) (category level : string)
    (a : list iface) (m : Machine) :
  Println stk category level a m =
    if checkPrintable (self m) category level
    then lockedWrite (fst (header (self m) stk category level (world m)) ++
                      bytes_of (fmt_Sprintln a))
           (mkMachine (self m) (snd (header (self m) stk category level (world m))))
    else (Ret (0, None), m).
Proof.
  unfold Println. unfold_M. destruct (checkPrintable _ _ _); cbn; [|done].
  now rewrite formatHeader_header.
Qed.

(** ** The string variants *)

Lemma same_config_checkPrintable (l1 l2 : SHLogger) (category level : string) :
  same_config l1 l2 ->
  checkPrintable l1 category level = checkPrintable l2 category level.
Proof.
  intros (_ & _ & Hc & Hl & Hd). unfold checkPrintable. now rewrite Hc, Hl, Hd.
Qed.

Lemma same_config_header (l1 l2 : SHLogger) (stk : list Frame)
    (category level : string) (w1 w2 : World) :
  same_config l1 l2 -> same_clock w1 w2 ->
  fst (header l1 stk category level w1) = fst (header l2 stk category level w2).
Proof.
  intros (Hp & Ht & _) Hw. unfold header, callContext. rewrite Hp, Ht.
  apply render_same_clock. exact Hw.
Qed.

Lemma runtime_events_replicate (n : nat) :
  forallb runtime_event (EvCaller 2 :: replicate n EvNow) = true.
Proof. cbn. induction n; cbn; auto. Qed.

(** C10. [Sprintf] and [Sprintln] return for every state of the logger,
    the lock held or not; they leave every field of the logger, the disk
    and the open files as they were; the only calls they make outside the
    package are [runtime.Caller] and [time.Now]; the string they return is
    the same for any two machines of the same configuration and clock,
    whatever the lock and the sink are; and after [Close] it still is the
    header followed by the body. *)
Theorem C10_sprint_ignores_the_sink (stk : list Frame)
    (category level format : string) (a : list iface) (m : Machine) :
  let sprint (r : Outcome string * Machine) :=
    (exists s, fst r = Ret s) /\
    self (snd r) = self m /\
    disk (world (snd r)) = disk (world m) /\
    handles (world (snd r)) = handles (world m) /\
    denied (world (snd r)) = denied (world m) /\
    exists evs, trace (world (snd r)) = trace (world m) ++ evs /\
                forallb runtime_event evs = true in
  sprint (Sprintf stk category level format a m) /\
  sprint (Sprintln stk category level a m) /\
  (forall m2, same_config (self m) (self m2) -> same_clock (world m) (world m2) ->
     fst (Sprintf stk category level format a m2) =
       fst (Sprintf stk category level format a m) /\
     fst (Sprintln stk category level a m2) = fst (Sprintln stk category level a m)) /\
  (checkPrintable (self m) category level = true ->
     fst (Sprintf stk category level format a (snd (Close m))) =
       Ret (string_of (fst (header (self m) stk category level (world m)) ++
                       bytes_of (fmt_Sprintf format a))) /\
     fst (Sprintln stk category level a (snd (Close m))) =
       Ret (string_of (fst (header (self m) stk category level (world m)) ++
                       bytes_of (fmt_Sprintln a)))).
Proof.
  cbn zeta.
  assert (Hframe : forall s (b : bool),
    let r := if b then (Ret s, mkMachine (self m)
                                 (snd (header (self m) stk category level (world m))))
             else (Ret "", m) in
    (exists s, fst r = Ret s) /\
    self (snd r) = self m /\
    disk (world (snd r)) = disk (world m) /\
    handles (world (snd r)) = handles (world m) /\
    denied (world (snd r)) = denied (world m) /\
    exists evs, trace (world (snd r)) = trace (world m) ++ evs /\
                forallb runtime_event evs = true).
  { intros s [|]; cbn zeta.
    - destruct (header_world (self m) stk category level (world m)) as [n Hn].
      cbn [fst snd self world]. rewrite Hn. cbn.
      repeat (split; [eauto|]). exists (EvCaller 2 :: replicate n EvNow).
      split; [now rewrite <- app_assoc|apply runtime_events_replicate].
    - cbn. repeat (split; [eauto|]). exists []. now rewrite app_nil_r. }
  split; [rewrite Sprintf_eq; apply Hframe|].
  split; [rewrite Sprintln_eq; apply Hframe|].
  split.
  - intros m2 Hc Hw. rewrite !Sprintf_eq, !Sprintln_eq.
    rewrite <- (same_config_checkPrintable _ _ category level Hc).
    rewrite <- (same_config_header _ _ stk category level _ _ Hc Hw).
    now destruct (checkPrintable _ _ _).
  - intros Hp. rewrite Sprintf_eq, Sprintln_eq, Close_eq. cbn [snd self world].
    rewrite Hp. cbn [fst].
    rewrite (same_config_header (self m) (self m) stk category level
               (snd (File_Close (out (self m)) (world m))) (world m)); [done|done|].
    unfold File_Close, same_clock.
    destruct (out (self m)) as [h|]; [|done].
    cbn. destruct (handles (world m) !! h) as [f|]; [|done].
    now destruct (f_closed f).
Qed.

(** ** The sink *)

Lemma File_Write_dead (l : SHLogger) (b : bytes) (w : World) :
  sink_open l w = false ->
  exists err, File_Write (out l) b w =
    (0, Some err, set_trace w (trace w ++ [EvWrite (out l) b])).
Proof.
  unfold sink_open, File_Write. destruct (out l) as [h|]; [|eauto].
  cbn. destruct (handles w !! h) as [f|]; [|eauto].
  destruct (f_closed f); [eauto|discriminate].
Qed.

Lemma File_Write_live (h : nat) (f : File) (b : bytes) (w : World) :
  handles w !! h = Some f -> f_closed f = false ->
  File_Write (Some h) b w =
    (Z.of_nat (length b), None,
     set_disk (set_trace w (trace w ++ [EvWrite (Some h) b]))
       (<[f_name f := default [] (disk w !! f_name f) ++ b]> (disk w))).
Proof. intros Hh Hf. unfold File_Write. cbn. now rewrite Hh, Hf. Qed.

Lemma File_Close_dead (l : SHLogger) (w : World) :
  sink_open l (snd (File_Close (out l) w)) = false.
Proof.
  unfold sink_open, File_Close. destruct (out l) as [h|]; [|done]. cbn.
  destruct (handles w !! h) as [f|] eqn:E; cbn; [|now rewrite E].
  destruct (f_closed f) eqn:Ef; cbn; [now rewrite E, Ef|].
  rewrite list_lookup_insert_eq by (now apply lookup_lt_Some in E). done.
Qed.

Lemma File_Close_world (o : option nat) (w : World) :
  let w' := snd (File_Close o w) in
  disk w' = disk w /\ denied w' = denied w /\
  length (handles w') = length (handles w) /\
  trace w' = trace w ++ [EvClose o].
Proof.
  unfold File_Close. destruct o as [h|]; [|done]. cbn.
  destruct (handles w !! h) as [f|]; [|done].
  destruct (f_closed f); cbn; [done|]. now rewrite length_insert.
Qed.

Lemma sink_open_trace (l : SHLogger) (w : World) (t : list Event) :
  sink_open l (set_trace w t) = sink_open l w.
Proof. reflexivity. Qed.

(** A write that passes the filter, on a logger without a usable sink:
    the error of the sink comes back and the disk is as it was. *)
Lemma lockedWrite_dead (buf : bytes) (m : Machine) :
  mutex (self m) = false -> sink_open (self m) (world m) = false ->
  exists err m', lockedWrite buf m = (Ret (0, Some err), m') /\
    self m' = self m /\ disk (world m') = disk (world m) /\
    handles (world m') = handles (world m).
Proof.
  intros Hm Hs. rewrite lockedWrite_free by done.
  destruct (File_Write_dead (self m) buf
              (set_trace (world m) (trace (world m) ++ [EvLock])) Hs) as [err ->].
  eauto 10.
Qed.

(** The same write on a usable sink: all the bytes go to the end of the
    file that [out] was opened on. *)
Lemma lockedWrite_live (buf : bytes) (m : Machine) (h : nat) (f : File) :
  mutex (self m) = false -> out (self m) = Some h ->
  handles (world m) !! h = Some f -> f_closed f = false ->
  exists m', lockedWrite buf m = (Ret (Z.of_nat (length buf), None), m') /\
    self m' = self m /\ handles (world m') = handles (world m) /\
    disk (world m') =
      <[f_name f := default [] (disk (world m) !! f_name f) ++ buf]> (disk (world m)).
Proof.
  intros Hm Ho Hh Hf. rewrite lockedWrite_free, Ho by done.
  rewrite (File_Write_live h f) by done. eauto 10.
Qed.

Lemma header_frame (l : SHLogger) (stk : list Frame) (category level : string)
    (w : World) :
  let w' := snd (header l stk category level w) in
  disk w' = disk w /\ handles w' = handles w /\ denied w' = denied w.
Proof.
  destruct (header_world l stk category level w) as [n Hn]. cbn zeta. now rewrite Hn.
Qed.

Lemma header_sink_open (l l' : SHLogger) (stk : list Frame) (category level : string)
    (w : World) :
  sink_open l (snd (header l' stk category level w)) = sink_open l w.
Proof.
  unfold sink_open. now destruct (header_frame l' stk category level w) as (_ & -> & _).
Qed.

(** ** A logger without a usable sink stays so until it is reopened *)

Lemma exec_mutex (c : Call) (m : Machine) :
  mutex (self m) = false -> mutex (self (snd (exec c m))) = false.
Proof.
  intros Hm. destruct c; cbn [exec].
  - rewrite Close_eq. exact Hm.
  - unfold_M. rewrite Reopen_free by done. cbn.
    now destruct (os_OpenFile _ _) as [[h|err] w3].
  - exact Hm.
  - exact Hm.
  - exact Hm.
  - exact Hm.
  - unfold SetCategory. unfold_M. now destruct (categories (self m)).
  - unfold_M. pose proof (Printf_self stk category level format a m) as H.
    destruct (Printf _ _ _ _ _ _) as [[r| |] m']; cbn in *; now rewrite H.
  - unfold_M. pose proof (Println_self stk category level a m) as H.
    destruct (Println _ _ _ _ _) as [[r| |] m']; cbn in *; now rewrite H.
  - unfold_M. pose proof (Sprintf_self stk category level format a m) as H.
    destruct (Sprintf _ _ _ _ _ _) as [[r| |] m']; cbn in *; now rewrite H.
  - unfold_M. pose proof (Sprintln_self stk category level a m) as H.
    destruct (Sprintln _ _ _ _ _) as [[r| |] m']; cbn in *; now rewrite H.
Qed.

Lemma lockedWrite_sink_open (buf : bytes) (m : Machine) :
  sink_open (self (snd (lockedWrite buf m))) (world (snd (lockedWrite buf m))) =
  sink_open (self m) (world m).
Proof.
  destruct (mutex (self m)) eqn:E.
  - now rewrite lockedWrite_blocked.
  - rewrite lockedWrite_free by done. unfold File_Write, sink_open.
    destruct (out (self m)) as [h|] eqn:Eo; cbn; rewrite ?Eo; [|done].
    destruct (handles (world m) !! h) as [f|] eqn:Eh; cbn; rewrite ?Eo, ?Eh; [|done].
    destruct (f_closed f) eqn:Ef; cbn; rewrite ?Eo, ?Eh; now rewrite Ef.
Qed.

Lemma exec_dead (c : Call) (m : Machine) :
  is_Reopen c = false ->
  sink_open (self m) (world m) = false ->
  sink_open (self (snd (exec c m))) (world (snd (exec c m))) = false.
Proof.
  intros Hc Hs. destruct c; try discriminate; cbn [exec].
  - rewrite Close_eq. cbn. apply File_Close_dead.
  - exact Hs.
  - exact Hs.
  - exact Hs.
  - exact Hs.
  - unfold SetCategory. unfold_M. now destruct (categories (self m)).
  - unfold_M. rewrite Printf_eq. destruct (checkPrintable _ _ _); [|done].
    pose proof (lockedWrite_sink_open
      (fst (header (self m) stk category level (world m)) ++ bytes_of (fmt_Sprintf format a))
      (mkMachine (self m) (snd (header (self m) stk category level (world m))))) as H.
    cbn [self world] in H. rewrite header_sink_open in H.
    destruct (lockedWrite _ _) as [[r| |] m']; cbn in *; congruence.
  - unfold_M. rewrite Println_eq. destruct (checkPrintable _ _ _); [|done].
    pose proof (lockedWrite_sink_open
      (fst (header (self m) stk category level (world m)) ++ bytes_of (fmt_Sprintln a))
      (mkMachine (self m) (snd (header (self m) stk category level (world m))))) as H.
    cbn [self world] in H. rewrite header_sink_open in H.
    destruct (lockedWrite _ _) as [[r| |] m']; cbn in *; congruence.
  - unfold_M. rewrite Sprintf_eq. destruct (checkPrintable _ _ _); [|done].
    cbn. now rewrite header_sink_open.
  - unfold_M. rewrite Sprintln_eq. destruct (checkPrintable _ _ _); [|done].
    cbn. now rewrite header_sink_open.
Qed.

Lemma run_dead (cs : list Call) (m : Machine) :
  forallb (fun c => negb (is_Reopen c)) cs = true ->
  mutex (self m) = false ->
  sink_open (self m) (world m) = false ->
  mutex (self (snd (run cs m))) = false /\
  sink_open (self (snd (run cs m))) (world (snd (run cs m))) = false.
Proof.
  revert m. induction cs as [|c cs IH]; intros m H Hm Hs; [done|].
  cbn in H. apply andb_prop in H as [Hc Hcs]. apply negb_true_iff in Hc.
  cbn [run]. unfold_M.
  pose proof (exec_mutex c m Hm) as Em. pose proof (exec_dead c m Hc Hs) as Es.
  destruct (exec c m) as [[[]| |] m']; cbn in *; [|done|done].
  now apply IH.
Qed.

(** ** [Reopen] *)

Lemma File_Close_eq (o : option nat) (w : World) :
  snd (File_Close o w) =
    mkWorld (disk w) (closed_handles o (handles w)) (denied w) (clock w) (ticks w)
            (trace w ++ [EvClose o]).
Proof.
  unfold File_Close, closed_handles. destruct o as [h|]; [|done]. cbn.
  destruct (handles w !! h) as [f|]; [|done]. now destruct (f_closed f).
Qed.

Lemma closed_handles_length (o : option nat) (hs : list File) :
  length (closed_handles o hs) = length hs.
Proof.
  unfold closed_handles. destruct o as [h|]; [|done].
  destruct (hs !! h) as [f|]; [|done]. destruct (f_closed f); [done|].
  apply length_insert.
Qed.

Lemma closed_handles_closed (h : nat) (f : File) (hs : list File) :
  hs !! h = Some f ->
  exists f', closed_handles (Some h) hs !! h = Some f' /\ f_closed f' = true /\
             f_name f' = f_name f.
Proof.
  intros H. unfold closed_handles. rewrite H. destruct (f_closed f) eqn:E.
  - exists f. now rewrite H.
  - exists (mkFile (f_name f) true).
    rewrite list_lookup_insert_eq by (now apply lookup_lt_Some in H). done.
Qed.

Lemma Reopen_fail (m : Machine) :
  mutex (self m) = false ->
  filename (self m) ∈ denied (world m) ->
  Reopen m =
    (Ret (Some (PathError "open" (filename (self m)))),
     mkMachine (self m)
       (mkWorld (disk (world m)) (closed_handles (out (self m)) (handles (world m)))
          (denied (world m)) (clock (world m)) (ticks (world m))
          (trace (world m) ++
           [EvLock; EvClose (out (self m)); EvOpenFile (filename (self m)); EvUnlock]))).
Proof.
  intros Hm Hd. rewrite Reopen_free by done. cbn zeta.
  rewrite File_Close_eq. unfold os_OpenFile. cbn.
  rewrite decide_True by done. unfold set_trace. cbn.
  now rewrite <- !app_assoc.
Qed.

Lemma Reopen_ok (m : Machine) :
  mutex (self m) = false ->
  filename (self m) ∉ denied (world m) ->
  Reopen m =
    (Ret None,
     mkMachine (set_out (self m) (Some (length (handles (world m)))))
       (mkWorld (created (filename (self m)) (disk (world m)))
          (closed_handles (out (self m)) (handles (world m)) ++
           [mkFile (filename (self m)) false])
          (denied (world m)) (clock (world m)) (ticks (world m))
          (trace (world m) ++
           [EvLock; EvClose (out (self m)); EvOpenFile (filename (self m)); EvUnlock]))).
Proof.
  intros Hm Hd. rewrite Reopen_free by done. cbn zeta.
  rewrite File_Close_eq. unfold os_OpenFile. cbn.
  rewrite decide_False by done. unfold set_trace, set_handles, set_disk, created. cbn.
  rewrite closed_handles_length, <- !app_assoc. cbn.
  now destruct (disk (world m) !! filename (self m)).
Qed.

Lemma Printf_dead (stk : list Frame) (category level format : string)
    (a : list iface) (m : Machine) :
  mutex (self m) = false -> sink_open (self m) (world m) = false ->
  checkPrintable (self m) category level = true ->
  (exists err, fst (Printf stk category level format a m) = Ret (0, Some err)) /\
  disk (world (snd (Printf stk category level format a m))) = disk (world m).
Proof.
  intros Hm Hs Hp. rewrite Printf_eq, Hp.
  destruct (lockedWrite_dead
    (fst (header (self m) stk category level (world m)) ++ bytes_of (fmt_Sprintf format a))
    (mkMachine (self m) (snd (header (self m) stk category level (world m)))))
    as (err & m' & -> & _ & Hd & _);
    [exact Hm|cbn [self world]; now rewrite header_sink_open|].
  split; [now exists err|]. cbn in *. rewrite Hd.
  now destruct (header_frame (self m) stk category level (world m)) as (-> & _).
Qed.

Lemma Println_dead (stk : list Frame) (category level : string)
    (a : list iface) (m : Machine) :
  mutex (self m) = false -> sink_open (self m) (world m) = false ->
  checkPrintable (self m) category level = true ->
  (exists err, fst (Println stk category level a m) = Ret (0, Some err)) /\
  disk (world (snd (Println stk category level a m))) = disk (world m).
Proof.
  intros Hm Hs Hp. rewrite Println_eq, Hp.
  destruct (lockedWrite_dead
    (fst (header (self m) stk category level (world m)) ++ bytes_of (fmt_Sprintln a))
    (mkMachine (self m) (snd (header (self m) stk category level (world m)))))
    as (err & m' & -> & _ & Hd & _);
    [exact Hm|cbn [self world]; now rewrite header_sink_open|].
  split; [now exists err|]. cbn in *. rewrite Hd.
  now destruct (header_frame (self m) stk category level (world m)) as (-> & _).
Qed.

Lemma Printf_live (stk : list Frame) (category level format : string)
    (a : list iface) (m : Machine) (h : nat) (f : File) :
  mutex (self m) = false -> out (self m) = Some h ->
  handles (world m) !! h = Some f -> f_closed f = false ->
  checkPrintable (self m) category level = true ->
  let buf := fst (header (self m) stk category level (world m)) ++
             bytes_of (fmt_Sprintf format a) in
  fst (Printf stk category level format a m) = Ret (Z.of_nat (length buf), None) /\
  disk (world (snd (Printf stk category level format a m))) =
    <[f_name f := default [] (disk (world m) !! f_name f) ++ buf]> (disk (world m)).
Proof.
  intros Hm Ho Hh Hf Hp. cbn zeta. rewrite Printf_eq, Hp.
  destruct (header_frame (self m) stk category level (world m)) as (Hd & Hhs & _).
  destruct (lockedWrite_live
    (fst (header (self m) stk category level (world m)) ++ bytes_of (fmt_Sprintf format a))
    (mkMachine (self m) (snd (header (self m) stk category level (world m)))) h f)
    as (m' & -> & _ & _ & Hdisk);
    [exact Hm|exact Ho|cbn [self world]; now rewrite Hhs|exact Hf|].
  split; [done|]. cbn in *. now rewrite Hdisk, Hd.
Qed.

Lemma Println_live (stk : list Frame) (category level : string)
    (a : list iface) (m : Machine) (h : nat) (f : File) :
  mutex (self m) = false -> out (self m) = Some h ->
  handles (world m) !! h = Some f -> f_closed f = false ->
  checkPrintable (self m) category level = true ->
  let buf := fst (header (self m) stk category level (world m)) ++
             bytes_of (fmt_Sprintln a) in
  fst (Println stk category level a m) = Ret (Z.of_nat (length buf), None) /\
  disk (world (snd (Println stk category level a m))) =
    <[f_name f := default [] (disk (world m) !! f_name f) ++ buf]> (disk (world m)).
Proof.
  intros Hm Ho Hh Hf Hp. cbn zeta. rewrite Println_eq, Hp.
  destruct (header_frame (self m) stk category level (world m)) as (Hd & Hhs & _).
  destruct (lockedWrite_live
    (fst (header (self m) stk category level (world m)) ++ bytes_of (fmt_Sprintln a))
    (mkMachine (self m) (snd (header (self m) stk category level (world m)))) h f)
    as (m' & -> & _ & _ & Hdisk);
    [exact Hm|exact Ho|cbn [self world]; now rewrite Hhs|exact Hf|].
  split; [done|]. cbn in *. now rewrite Hdisk, Hd.
Qed.

Lemma created_default (name : string) (d : gmap string bytes) :
  default [] (created name d !! name) = default [] (d !! name).
Proof.
  unfold created. destruct (d !! name) as [b|] eqn:E; [now rewrite E|].
  now rewrite lookup_insert_eq.
Qed.

(** * Further properties of the package *)

(** ** [Open] *)

Lemma Open_fail_eq (name : string) (w : World) :
  name ∈ denied w ->
  Open name w = (inr (PathError "open" name), set_trace w (trace w ++ [EvOpenFile name])).
Proof. intros H. unfold Open, os_OpenFile. cbn. now rewrite decide_True. Qed.

Lemma Open_ok_eq (name : string) (w : World) :
  name ∉ denied w ->
  Open name w =
    (inl (mkSHLogger name false "" "" (Some (length (handles w))) (Some ∅)
            default_levelmap 4),
     mkWorld (created name (disk w)) (handles w ++ [mkFile name false]) (denied w)
             (clock w) (ticks w) (trace w ++ [EvOpenFile name])).
Proof.
  intros H. unfold Open, os_OpenFile. cbn. rewrite decide_False by done.
  unfold created. now destruct (disk w !! name).
Qed.

(** X1. [Open] fails exactly on a path that cannot be opened.  When it
    fails it returns the error and no logger, and the disk and the table of
    open files are as they were.  When it succeeds the logger is ready: its
    sink is a new open file object on that path, no other file object is
    touched, the file exists, and what it held before is kept. *)
Theorem X1_Open_outcome (name : string) (w : World) :
  let r := Open name w in
  ((exists err, fst r = inr err) <-> name ∈ denied w) /\
  (name ∈ denied w ->
     fst r = inr (PathError "open" name) /\
     disk (snd r) = disk w /\ handles (snd r) = handles w) /\
  (name ∉ denied w ->
     exists l, fst r = inl l /\
       filename l = name /\ mutex l = false /\
       out l = Some (length (handles w)) /\
       sink_open l (snd r) = true /\
       (forall h, (h < length (handles w))%nat ->
                  handles (snd r) !! h = handles w !! h) /\
       disk (snd r) !! name = Some (default [] (disk w !! name)) /\
       (forall other, other <> name -> disk (snd r) !! other = disk w !! other)).
Proof.
  cbn zeta. destruct (decide (name ∈ denied w)) as [Hd|Hd].
  - rewrite (Open_fail_eq name w Hd). cbn. split; [|split].
    + split; [done|eauto].
    + done.
    + done.
  - rewrite (Open_ok_eq name w Hd). cbn [fst snd]. split; [|split].
    + split; [intros [err H]; discriminate|done].
    + done.
    + intros _. eexists. split; [reflexivity|]. cbn.
      split; [done|]. split; [done|]. split; [done|]. split.
      { unfold sink_open. cbn. now rewrite list_lookup_middle. }
      split; [intros h Hh; now apply lookup_app_l|]. split.
      * unfold created. destruct (disk w !! name) as [b|] eqn:E; [now rewrite E|].
        now rewrite lookup_insert_eq.
      * intros other Hne. unfold created.
        destruct (disk w !! name); [done|]. now rewrite lookup_insert_ne.
Qed.

Lemma default_levelmap_index (level : string) :
  map_index default_levelmap level <= 4 <-> level ∉ ["INFO"; "DEBUG"; "ALL"].
Proof.
  unfold map_index, default_levelmap.
  rewrite !not_elem_of_cons.
  repeat (rewrite lookup_insert; case_decide; [subst; cbn; split;
            [intros; repeat split; (discriminate || apply not_elem_of_nil || lia)
            |intros (? & ? & ? & ?); (lia || congruence)]|]).
  rewrite lookup_empty. cbn. split; [|lia]. intros _.
  repeat split; try congruence. apply not_elem_of_nil.
Qed.

(** X2. The logger that [Open] returns prints, for every category, the
    levels [OFF], [FATAL], [ERROR] and [WARN] of the table it installs and
    every name the table does not have; it filters [INFO], [DEBUG] and
    [ALL], and only those. *)
Theorem X2_Open_default_filter (name : string) (w : World) (l : SHLogger)
    (category level : string) :
  fst (Open name w) = inl l ->
  (checkPrintable l category level = true <-> level ∉ ["INFO"; "DEBUG"; "ALL"]) /\
  levelmap l = default_levelmap /\ deflevel l = 4 /\ categories l = Some ∅.
Proof.
  intros H. destruct (decide (name ∈ denied w)) as [Hd|Hd].
  - rewrite (Open_fail_eq name w Hd) in H. discriminate.
  - rewrite (Open_ok_eq name w Hd) in H. cbn in H. injection H as <-.
    split; [|done]. unfold checkPrintable, map_lookup. cbn. rewrite lookup_empty.
    rewrite Z.leb_le. apply default_levelmap_index.
Qed.
Lemma header_empty_prefix (l : SHLogger) (stk : list Frame) (category level : string)
    (w : World) :
  prefix l = "" ->
  header l stk category level w = ([], set_trace w (trace w ++ [EvCaller 2])).
Proof. intros H. unfold header. now rewrite H. Qed.

(** X3. The logger that [Open] returns has the empty prefix: a [Printf] or
    [Println] that passes the filter puts the body alone at the end of the
    file, after what the file held before [Open], and returns the length of
    the body; [Sprintf] and [Sprintln] return the body alone. *)
Theorem X3_fresh_logger_writes_the_body (name : string) (w w' : World) (l : SHLogger)
    (stk : list Frame) (category level format : string) (a : list iface) :
  Open name w = (inl l, w') ->
  checkPrintable l category level = true ->
  let m := mkMachine l w' in
  let old := default [] (disk w !! name) in
  (fst (Printf stk category level format a m) =
     Ret (Z.of_nat (length (bytes_of (fmt_Sprintf format a))), None) /\
   disk (world (snd (Printf stk category level format a m))) !! name =
     Some (old ++ bytes_of (fmt_Sprintf format a))) /\
  (fst (Println stk category level a m) =
     Ret (Z.of_nat (length (bytes_of (fmt_Sprintln a))), None) /\
   disk (world (snd (Println stk category level a m))) !! name =
     Some (old ++ bytes_of (fmt_Sprintln a))) /\
  fst (Sprintf stk category level format a m) = Ret (fmt_Sprintf format a) /\
  fst (Sprintln stk category level a m) = Ret (fmt_Sprintln a).
Proof.
  intros H Hp. cbn zeta.
  destruct (decide (name ∈ denied w)) as [Hd|Hd].
  { rewrite (Open_fail_eq name w Hd) in H. discriminate. }
  rewrite (Open_ok_eq name w Hd) in H. injection H as <- <-.
  match goal with |- context [Printf _ _ _ _ _ ?mm] => set (m := mm) in * end.
  assert (Hh : handles (world m) !! length (handles w) = Some (mkFile name false)).
  { cbn. now apply list_lookup_middle. }
  assert (He : forall c lv, fst (header (self m) stk c lv (world m)) = []).
  { intros c lv. now rewrite header_empty_prefix. }
  assert (Hold : default [] (disk (world m) !! name) = default [] (disk w !! name)).
  { cbn. apply created_default. }
  split; [|split; [|split]].
  - destruct (Printf_live stk category level format a m (length (handles w))
                (mkFile name false)) as [-> ->]; try done.
    rewrite He. cbn [app f_name]. split; [done|].
    now rewrite lookup_insert_eq, Hold.
  - destruct (Println_live stk category level a m (length (handles w))
                (mkFile name false)) as [-> ->]; try done.
    rewrite He. cbn [app f_name]. split; [done|].
    now rewrite lookup_insert_eq, Hold.
  - rewrite Sprintf_eq. change (self m) with (self m) in *.
    replace (checkPrintable (self m) category level) with true by (symmetry; exact Hp).
    cbn [fst]. rewrite He. cbn [app]. now rewrite string_of_bytes_of.
  - rewrite Sprintln_eq.
    replace (checkPrintable (self m) category level) with true by (symmetry; exact Hp).
    cbn [fst]. rewrite He. cbn [app]. now rewrite string_of_bytes_of.
Qed.

(** ** [Close] *)

(** X4. [Close] takes no lock and reports no error: in every state, the
    lock held or not, the sink open, closed or nil, it returns, changes no
    field of the logger and nothing on the disk, calls [Close] of the file
    object once, and leaves the logger without a usable sink.  A second
    [Close] changes nothing in the table of open files. *)
Theorem X4_Close_in_every_state (m : Machine) :
  let m' := snd (Close m) in
  fst (Close m) = Ret tt /\
  self m' = self m /\
  disk (world m') = disk (world m) /\
  trace (world m') = trace (world m) ++ [EvClose (out (self m))] /\
  sink_open (self m') (world m') = false /\
  handles (world (snd (Close m'))) = handles (world m') /\
  (forall h, out (self m) <> Some h -> handles (world m') !! h = handles (world m) !! h).
Proof.
  cbn zeta. rewrite !Close_eq. cbn [fst snd self world]. rewrite !File_Close_eq.
  cbn [disk handles trace].
  split; [done|]. split; [done|]. split; [done|]. split; [done|]. split.
  { pose proof (File_Close_dead (self m) (world m)) as H.
    now rewrite File_Close_eq in H. }
  split.
  - unfold closed_handles. destruct (out (self m)) as [h|]; [|done].
    destruct (handles (world m) !! h) as [f|] eqn:E; rewrite ?E; [|done].
    destruct (f_closed f) eqn:Ef; [now rewrite E, Ef|].
    now rewrite list_lookup_insert_eq by (now apply lookup_lt_Some in E).
  - intros h Hh. unfold closed_handles. destruct (out (self m)) as [h0|]; [|done].
    destruct (handles (world m) !! h0) as [f|]; [|done].
    destruct (f_closed f); [done|]. apply list_lookup_insert_ne. congruence.
Qed.

(** X5. After [Close], and until the next [Reopen], every [Printf] and
    [Println] that passes the filter returns the error of the sink and
    zero bytes, and the disk is as it was. *)
Theorem X5_writes_after_Close_fail (m : Machine) (cs : list Call) (stk : list Frame)
    (category level format : string) (a : list iface) :
  mutex (self m) = false ->
  forallb (fun c => negb (is_Reopen c)) cs = true ->
  let m2 := snd ((Close;; run cs) m) in
  checkPrintable (self m2) category level = true ->
  (exists err, fst (Printf stk category level format a m2) = Ret (0, Some err)) /\
  disk (world (snd (Printf stk category level format a m2))) = disk (world m2) /\
  (exists err, fst (Println stk category level a m2) = Ret (0, Some err)) /\
  disk (world (snd (Println stk category level a m2))) = disk (world m2).
Proof.
  intros Hm Hcs. cbn zeta. unfold_M. rewrite Close_eq.
  match goal with |- context [run cs ?mm] => set (m1 := mm) in * end.
  assert (Hdead : sink_open (self m1) (world m1) = false)
    by apply File_Close_dead.
  destruct (run_dead cs m1 Hcs Hm Hdead) as [Hm2 Hs2]. intros Hp.
  destruct (Printf_dead stk category level format a _ Hm2 Hs2 Hp) as [H1 H2].
  destruct (Println_dead stk category level a _ Hm2 Hs2 Hp) as [H3 H4].
  done.
Qed.

(** ** The lock *)

(** X6. With the lock held by another goroutine, [Reopen] blocks before it
    closes anything, and a [Printf] or [Println] that passes the filter
    blocks after it has rendered the header and before it writes: neither
    changes the logger, the disk or the open files, and the only calls made
    are those of the header to [runtime.Caller] and [time.Now]. *)
Theorem X6_lock_held_blocks (m : Machine) (stk : list Frame)
    (category level format : string) (a : list iface) :
  mutex (self m) = true ->
  Reopen m = (Blocked, m) /\
  (checkPrintable (self m) category level = true ->
   let blocked (r : Outcome (Z * option error) * Machine) :=
     fst r = Blocked /\
     self (snd r) = self m /\
     disk (world (snd r)) = disk (world m) /\
     handles (world (snd r)) = handles (world m) /\
     exists evs, trace (world (snd r)) = trace (world m) ++ evs /\
                 forallb runtime_event evs = true in
   blocked (Printf stk category level format a m) /\
   blocked (Println stk category level a m)).
Proof.
  intros Hm. split; [now apply Reopen_blocked|]. intros Hp. cbn zeta.
  rewrite Printf_eq, Println_eq, Hp, !lockedWrite_blocked by exact Hm.
  cbn [fst snd self world].
  destruct (header_world (self m) stk category level (world m)) as [n ->].
  cbn [disk handles trace after_clock_reads set_trace].
  assert (He : exists evs,
            (trace (world m) ++ [EvCaller 2]) ++ replicate n EvNow =
            trace (world m) ++ evs /\ forallb runtime_event evs = true).
  { exists (EvCaller 2 :: replicate n EvNow).
    split; [now rewrite <- app_assoc|apply runtime_events_replicate]. }
  done.
Qed.

(** ** The filter and its configuration *)

(** X7. A logger whose maps and sink are nil, such as the zero value of the
    struct: the filter reads the nil map of categories as empty and decides
    by the default threshold; [SetCategory] panics on the nil map and
    changes nothing; a write that passes the filter returns the
    invalid-argument error of the nil file, without a panic, and the disk
    is as it was. *)
Theorem X7_nil_map_and_nil_sink (m : Machine) (stk : list Frame)
    (category level name format : string) (a : list iface) :
  (categories (self m) = None ->
     SetCategory category name m = (Panic "assignment to entry in nil map", m) /\
     checkPrintable (self m) category level =
       (map_index (levelmap (self m)) level <=? deflevel (self m))) /\
  (out (self m) = None -> mutex (self m) = false ->
   checkPrintable (self m) category level = true ->
     fst (Printf stk category level format a m) = Ret (0, Some ErrInvalid) /\
     disk (world (snd (Printf stk category level format a m))) = disk (world m) /\
     fst (Println stk category level a m) = Ret (0, Some ErrInvalid) /\
     disk (world (snd (Println stk category level a m))) = disk (world m)).
Proof.
  split.
  - intros H. split; [now apply SetCategory_nil|].
    apply checkPrintable_default. unfold map_lookup. now rewrite H.
  - intros Ho Hm Hp. rewrite Printf_eq, Println_eq, Hp.
    rewrite !lockedWrite_free by exact Hm. cbn [self world]. rewrite Ho.
    cbn. now destruct (header_frame (self m) stk category level (world m)) as (-> & _).
Qed.

(** X8. A second [SetCategory] of the same category replaces the first:
    the last call wins; and two [SetCategory] calls on different categories
    give the same logger in either order. *)
Theorem X8_SetCategory_last_wins (c1 c2 a b : string) (m : Machine) :
  snd ((SetCategory c1 a;; SetCategory c1 b) m) = snd (SetCategory c1 b m) /\
  (c1 <> c2 ->
   snd ((SetCategory c1 a;; SetCategory c2 b) m) =
   snd ((SetCategory c2 b;; SetCategory c1 a) m)).
Proof.
  destruct (categories (self m)) as [c|] eqn:E.
  - split.
    + unfold_M. rewrite (SetCategory_ok c1 a m c E).
      erewrite !SetCategory_ok by (cbn; first [exact E|reflexivity]).
      cbn. now rewrite insert_insert_eq.
    + intros Hne. unfold_M.
      rewrite (SetCategory_ok c1 a m c E), (SetCategory_ok c2 b m c E).
      erewrite !SetCategory_ok by (cbn; reflexivity).
      cbn. f_equal. unfold set_categories. cbn. f_equal. f_equal.
      now apply insert_insert_ne.
  - split; [|intros _]; unfold_M; now rewrite !(SetCategory_nil _ _ m E).
Qed.

Lemma exec_categories (c : Call) (m : Machine) :
  (forall c' lv, c <> CallSetCategory c' lv) ->
  categories (self (snd (exec c m))) = categories (self m).
Proof.
  intros Hc. destruct c; cbn [exec].
  - now rewrite Close_eq.
  - unfold_M. destruct (mutex (self m)) eqn:E.
    + now rewrite Reopen_blocked.
    + rewrite Reopen_free by done. cbn.
      now destruct (os_OpenFile _ _) as [[h|err] w3].
  - reflexivity.
  - reflexivity.
  - reflexivity.
  - reflexivity.
  - exfalso. exact (Hc category level eq_refl).
  - unfold_M. pose proof (Printf_self stk category level format a m) as Hs.
    destruct (Printf _ _ _ _ _ _) as [[r| |] m']; cbn in *; now rewrite Hs.
  - unfold_M. pose proof (Println_self stk category level a m) as Hs.
    destruct (Println _ _ _ _ _) as [[r| |] m']; cbn in *; now rewrite Hs.
  - unfold_M. pose proof (Sprintf_self stk category level format a m) as Hs.
    destruct (Sprintf _ _ _ _ _ _) as [[r| |] m']; cbn in *; now rewrite Hs.
  - unfold_M. pose proof (Sprintln_self stk category level a m) as Hs.
    destruct (Sprintln _ _ _ _ _) as [[r| |] m']; cbn in *; now rewrite Hs.
Qed.

Lemma exec_category (category : string) (T : Z) (c : Call) (m : Machine) :
  map_lookup (categories (self m)) category = Some T ->
  is_Some (map_lookup (categories (self (snd (exec c m)))) category) /\
  (is_SetCategory_of category c = false ->
   map_lookup (categories (self (snd (exec c m)))) category = Some T).
Proof.
  intros H.
  destruct c as [| | | | | |c' lv| | | |];
    try (rewrite exec_categories, H by discriminate; solve [eauto]).
  cbn [exec is_SetCategory_of].
  destruct (categories (self m)) as [cm|] eqn:E; [|discriminate].
  rewrite (SetCategory_ok _ _ _ _ E). unfold map_lookup in *. cbn in *.
  split.
  - rewrite lookup_insert. case_decide; [eauto|]. rewrite H. eauto.
  - intros Hc. apply bool_decide_eq_false in Hc.
    now rewrite lookup_insert_ne.
Qed.

(** X9. An override is never removed: a category that has one still has
    one after any sequence of calls; and when none of the calls is a
    [SetCategory] of that category, the threshold is the same number,
    whatever tables [SetLevelMap] has installed in between. *)
Theorem X9_overrides_persist (category : string) (T : Z) (cs : list Call) (m : Machine) :
  map_lookup (categories (self m)) category = Some T ->
  is_Some (map_lookup (categories (self (snd (run cs m)))) category) /\
  (forallb (fun c => negb (is_SetCategory_of category c)) cs = true ->
   map_lookup (categories (self (snd (run cs m)))) category = Some T).
Proof.
  revert T m. induction cs as [|c cs IH]; intros T m H.
  - cbn. rewrite H. eauto.
  - cbn [run forallb]. unfold_M.
    destruct (exec_category category T c m H) as [[T' HT'] Hsame].
    destruct (exec c m) as [[[]| |] m'] eqn:E; cbn [snd] in *.
    + split; [apply (IH T' m' HT')|].
      intros Hcs. apply andb_prop in Hcs as [Hc Hcs]. apply negb_true_iff in Hc.
      apply (IH T m' (Hsame Hc)). exact Hcs.
    + split; [eauto|]. intros Hcs. apply andb_prop in Hcs as [Hc _].
      apply negb_true_iff in Hc. auto.
    + split; [eauto|]. intros Hcs. apply andb_prop in Hcs as [Hc _].
      apply negb_true_iff in Hc. auto.
Qed.

(** X10. A level always passes the threshold set from its own name: after
    [SetCategory category name] the level [name] is printed for that
    category, and after [SetDefaultLevel name] for every category without
    an override.  No level name, [OFF] included, filters out its own
    level. *)
Theorem X10_level_passes_own_threshold (category name : string) (m : Machine) :
  (is_Some (categories (self m)) ->
   checkPrintable (self (snd (SetCategory category name m))) category name = true) /\
  (forall other,
     map_lookup (categories (self m)) other = None ->
     checkPrintable (self (snd (SetDefaultLevel name m))) other name = true).
Proof.
  split.
  - intros [c Hc]. rewrite (SetCategory_ok _ _ _ _ Hc). cbn.
    rewrite (checkPrintable_override _ _ _ (map_index (levelmap (self m)) name)).
    + apply Z.leb_refl.
    + unfold map_lookup. cbn. apply lookup_insert_eq.
  - intros other Ho. cbn. rewrite checkPrintable_default by exact Ho.
    apply Z.leb_refl.
Qed.

(** X11. The filter is monotone.  For one logger and category, a level that
    is at least as severe (its number is not larger) as a level that passes
    also passes; and a call that passes under the threshold set from one
    name passes under the threshold set from any name of a number that is
    not smaller. *)
Theorem X11_filter_monotone (category : string) (m : Machine) :
  (forall lv1 lv2,
     map_index (levelmap (self m)) lv1 <= map_index (levelmap (self m)) lv2 ->
     checkPrintable (self m) category lv2 = true ->
     checkPrintable (self m) category lv1 = true) /\
  (forall n1 n2 level,
     map_index (levelmap (self m)) n1 <= map_index (levelmap (self m)) n2 ->
     checkPrintable (self (snd (SetCategory category n1 m))) category level = true ->
     checkPrintable (self (snd (SetCategory category n2 m))) category level = true) /\
  (forall n1 n2 other level,
     map_index (levelmap (self m)) n1 <= map_index (levelmap (self m)) n2 ->
     checkPrintable (self (snd (SetDefaultLevel n1 m))) other level = true ->
     checkPrintable (self (snd (SetDefaultLevel n2 m))) other level = true).
Proof.
  split; [|split].
  - intros lv1 lv2 Hle. unfold checkPrintable.
    destruct (map_lookup _ _); rewrite !Z.leb_le; lia.
  - intros n1 n2 level Hle. destruct (categories (self m)) as [c|] eqn:E.
    + rewrite !(SetCategory_ok _ _ _ _ E). cbn.
      rewrite (checkPrintable_override _ _ _ (map_index (levelmap (self m)) n1))
        by (unfold map_lookup; cbn; apply lookup_insert_eq).
      rewrite (checkPrintable_override _ _ _ (map_index (levelmap (self m)) n2))
        by (unfold map_lookup; cbn; apply lookup_insert_eq).
      cbn. rewrite !Z.leb_le. lia.
    + now rewrite !(SetCategory_nil _ _ _ E).
  - intros n1 n2 other level Hle. unfold SetDefaultLevel. unfold_M.
    unfold checkPrintable, set_deflevel. cbn [categories levelmap deflevel].
    destruct (map_lookup _ _); rewrite !Z.leb_le; lia.
Qed.

(** ** The writing operations and the sink *)

Lemma File_Write_trace (o : option nat) (b : bytes) (w : World) :
  trace (snd (File_Write o b w)) = trace w ++ [EvWrite o b] /\
  handles (snd (File_Write o b w)) = handles w.
Proof.
  unfold File_Write. destruct o as [h|]; [|done]. cbn.
  destruct (handles w !! h) as [f|]; [|done]. now destruct (f_closed f).
Qed.

Lemma disk_extends_refl (d : gmap string bytes) : disk_extends d d.
Proof. intros name b H. exists []. now rewrite app_nil_r. Qed.

Lemma disk_extends_trans (d1 d2 d3 : gmap string bytes) :
  disk_extends d1 d2 -> disk_extends d2 d3 -> disk_extends d1 d3.
Proof.
  intros H12 H23 name b H. destruct (H12 name b H) as [b1 H1].
  destruct (H23 name _ H1) as [b2 H2]. exists (b1 ++ b2). now rewrite app_assoc.
Qed.

Lemma File_Write_extends (o : option nat) (b : bytes) (w : World) :
  disk_extends (disk w) (disk (snd (File_Write o b w))).
Proof.
  unfold File_Write. destruct o as [h|]; [|apply disk_extends_refl]. cbn.
  destruct (handles w !! h) as [f|]; [|apply disk_extends_refl].
  destruct (f_closed f); [apply disk_extends_refl|]. cbn.
  intros name old H. destruct (decide (name = f_name f)) as [->|Hne].
  - exists b. now rewrite lookup_insert_eq, H.
  - exists []. now rewrite lookup_insert_ne, app_nil_r.
Qed.

Lemma lockedWrite_extends (buf : bytes) (m : Machine) :
  disk_extends (disk (world m)) (disk (world (snd (lockedWrite buf m)))).
Proof.
  destruct (mutex (self m)) eqn:E.
  - rewrite lockedWrite_blocked by done. apply disk_extends_refl.
  - rewrite lockedWrite_free by done.
    pose proof (File_Write_extends (out (self m)) buf
                  (set_trace (world m) (trace (world m) ++ [EvLock]))) as H.
    now destruct (File_Write _ _ _).
Qed.

Lemma created_extends (name : string) (d : gmap string bytes) :
  disk_extends d (created name d).
Proof.
  intros other b H. exists []. rewrite app_nil_r. unfold created.
  destruct (d !! name) eqn:E; [done|].
  rewrite lookup_insert_ne; [done|]. intros ->. congruence.
Qed.

Lemma Printf_extends (stk : list Frame) (category level format : string)
    (a : list iface) (m : Machine) :
  disk_extends (disk (world m))
    (disk (world (snd (Printf stk category level format a m)))).
Proof.
  rewrite Printf_eq. destruct (checkPrintable _ _ _); [|apply disk_extends_refl].
  pose proof (lockedWrite_extends
    (fst (header (self m) stk category level (world m)) ++ bytes_of (fmt_Sprintf format a))
    (mkMachine (self m) (snd (header (self m) stk category level (world m))))) as H.
  cbn [world] in H.
  now destruct (header_frame (self m) stk category level (world m)) as (<- & _).
Qed.

Lemma Println_extends (stk : list Frame) (category level : string)
    (a : list iface) (m : Machine) :
  disk_extends (disk (world m)) (disk (world (snd (Println stk category level a m)))).
Proof.
  rewrite Println_eq. destruct (checkPrintable _ _ _); [|apply disk_extends_refl].
  pose proof (lockedWrite_extends
    (fst (header (self m) stk category level (world m)) ++ bytes_of (fmt_Sprintln a))
    (mkMachine (self m) (snd (header (self m) stk category level (world m))))) as H.
  cbn [world] in H.
  now destruct (header_frame (self m) stk category level (world m)) as (<- & _).
Qed.

Lemma exec_extends (c : Call) (m : Machine) :
  disk_extends (disk (world m)) (disk (world (snd (exec c m)))).
Proof.
  destruct c; cbn [exec]; try apply disk_extends_refl.
  - rewrite Close_eq, File_Close_eq. apply disk_extends_refl.
  - unfold_M. destruct (mutex (self m)) eqn:E.
    + rewrite Reopen_blocked by done. apply disk_extends_refl.
    + destruct (decide (filename (self m) ∈ denied (world m))) as [Hd|Hd].
      * rewrite Reopen_fail by done. apply disk_extends_refl.
      * rewrite Reopen_ok by done. apply created_extends.
  - unfold SetCategory. unfold_M.
    destruct (categories (self m)); apply disk_extends_refl.
  - unfold_M. pose proof (Printf_extends stk category level format a m) as H.
    now destruct (Printf _ _ _ _ _ _) as [[r| |] m'].
  - unfold_M. pose proof (Println_extends stk category level a m) as H.
    now destruct (Println _ _ _ _ _) as [[r| |] m'].
  - unfold_M. rewrite Sprintf_eq. destruct (checkPrintable _ _ _);
      [|apply disk_extends_refl]. cbn.
    destruct (header_frame (self m) stk category level (world m)) as (-> & _).
    apply disk_extends_refl.
  - unfold_M. rewrite Sprintln_eq. destruct (checkPrintable _ _ _);
      [|apply disk_extends_refl]. cbn.
    destruct (header_frame (self m) stk category level (world m)) as (-> & _).
    apply disk_extends_refl.
Qed.

(** X12. The logger only appends: after any sequence of calls, every file
    that was on the disk is still there and begins with what it held; no
    call truncates, rewrites or removes a file. *)
Theorem X12_disk_is_append_only (cs : list Call) (m : Machine) :
  disk_extends (disk (world m)) (disk (world (snd (run cs m)))).
Proof.
  revert m. induction cs as [|c cs IH]; intros m; [apply disk_extends_refl|].
  cbn [run]. unfold_M. pose proof (exec_extends c m) as H.
  destruct (exec c m) as [[[]| |] m']; cbn [snd] in *; [|done|done].
  eapply disk_extends_trans; [exact H|apply IH].
Qed.

(** X13. What [Printf] writes is what [Sprintf] returns, and likewise for
    [Println] and [Sprintln]: on an open sink with the lock free, a call
    that passes the filter appends to the file of the sink exactly the
    bytes of the string that the string variant returns in the same state,
    and returns their number. *)
Theorem X13_Printf_writes_what_Sprintf_returns (stk : list Frame)
    (category level format : string) (a : list iface) (m : Machine)
    (h : nat) (f : File) :
  mutex (self m) = false -> out (self m) = Some h ->
  handles (world m) !! h = Some f -> f_closed f = false ->
  checkPrintable (self m) category level = true ->
  (exists s, fst (Sprintf stk category level format a m) = Ret s /\
     fst (Printf stk category level format a m) =
       Ret (Z.of_nat (length (bytes_of s)), None) /\
     disk (world (snd (Printf stk category level format a m))) =
       <[f_name f := default [] (disk (world m) !! f_name f) ++ bytes_of s]>
         (disk (world m))) /\
  (exists s, fst (Sprintln stk category level a m) = Ret s /\
     fst (Println stk category level a m) =
       Ret (Z.of_nat (length (bytes_of s)), None) /\
     disk (world (snd (Println stk category level a m))) =
       <[f_name f := default [] (disk (world m) !! f_name f) ++ bytes_of s]>
         (disk (world m))).
Proof.
  intros Hm Ho Hh Hf Hp. split.
  - eexists. rewrite Sprintf_eq, Hp. split; [reflexivity|].
    rewrite bytes_of_string_of.
    exact (Printf_live stk category level format a m h f Hm Ho Hh Hf Hp).
  - eexists. rewrite Sprintln_eq, Hp. split; [reflexivity|].
    rewrite bytes_of_string_of.
    exact (Println_live stk category level a m h f Hm Ho Hh Hf Hp).
Qed.

(** ** Sequences of calls *)

Lemma lockedWrite_returns (buf : bytes) (m : Machine) :
  mutex (self m) = false -> exists r, fst (lockedWrite buf m) = Ret r.
Proof.
  intros Hm. rewrite lockedWrite_free by done.
  destruct (File_Write _ _ _) as [r w]. now exists r.
Qed.

Lemma exec_ready (c : Call) (m : Machine) :
  ready (self m) ->
  fst (exec c m) = Ret tt /\ ready (self (snd (exec c m))).
Proof.
  intros [Hm Hc]. destruct c; cbn [exec].
  - rewrite Close_eq. now split.
  - unfold_M. rewrite Reopen_free by done. cbn.
    destruct (os_OpenFile _ _) as [[h|err] w3]; now split.
  - now split.
  - now split.
  - now split.
  - now split.
  - destruct Hc as [cm Hcm]. rewrite (SetCategory_ok _ _ _ _ Hcm).
    split; [done|]. split; [exact Hm|]. cbn. eauto.
  - unfold_M. pose proof (Printf_self stk category level format a m) as Hs.
    assert (Hr : exists r, fst (Printf stk category level format a m) = Ret r).
    { rewrite Printf_eq. destruct (checkPrintable _ _ _); [|cbn; eauto].
      now apply lockedWrite_returns. }
    destruct Hr as [r Hr].
    destruct (Printf _ _ _ _ _ _) as [o m']; cbn in *; subst o.
    cbn [fst snd]. rewrite Hs. now split.
  - unfold_M. pose proof (Println_self stk category level a m) as Hs.
    assert (Hr : exists r, fst (Println stk category level a m) = Ret r).
    { rewrite Println_eq. destruct (checkPrintable _ _ _); [|cbn; eauto].
      now apply lockedWrite_returns. }
    destruct Hr as [r Hr].
    destruct (Println _ _ _ _ _) as [o m']; cbn in *; subst o.
    cbn [fst snd]. rewrite Hs. now split.
  - unfold_M. pose proof (Sprintf_self stk category level format a m) as Hs.
    rewrite Sprintf_eq in *.
    destruct (checkPrintable _ _ _); cbn in *; now split.
  - unfold_M. pose proof (Sprintln_self stk category level a m) as Hs.
    rewrite Sprintln_eq in *.
    destruct (checkPrintable _ _ _); cbn in *; now split.
Qed.

(** X14. The logger that [Open] returns is ready (lock free, map of
    categories allocated), and a ready logger stays ready: every sequence
    of calls made one after the other returns, with no panic and no call
    blocked on the lock, whatever the sink does. *)
Theorem X14_calls_return (cs : list Call) (m : Machine) :
  ready (self m) ->
  fst (run cs m) = Ret tt /\ ready (self (snd (run cs m))) /\
  (forall name w l, fst (Open name w) = inl l -> ready l).
Proof.
  intros H. split; [|split].
  - revert m H. induction cs as [|c cs IH]; intros m H; [done|].
    cbn [run]. unfold_M. destruct (exec_ready c m H) as [Hr Hm'].
    destruct (exec c m) as [o m']. cbn in *. subst o. now apply IH.
  - revert m H. induction cs as [|c cs IH]; intros m H; [done|].
    cbn [run]. unfold_M. destruct (exec_ready c m H) as [Hr Hm'].
    destruct (exec c m) as [o m']. cbn in *. subst o. now apply IH.
  - intros name w l Ho. destruct (decide (name ∈ denied w)) as [Hd|Hd].
    + rewrite (Open_fail_eq name w Hd) in Ho. discriminate.
    + rewrite (Open_ok_eq name w Hd) in Ho. cbn in Ho. injection Ho as <-.
      split; cbn; eauto.
Qed.

Lemma lock_disciplined_app (held held' : bool) (evs evs' : list Event) :
  lock_disciplined held evs = Some held' ->
  lock_disciplined held (evs ++ evs') = lock_disciplined held' evs'.
Proof.
  revert held. induction evs as [|e evs IH]; intros held H; cbn in *.
  - congruence.
  - destruct e, held; try discriminate; now apply IH.
Qed.

Lemma lock_disciplined_runtime (held : bool) (evs : list Event) :
  forallb runtime_event evs = true -> lock_disciplined held evs = Some held.
Proof.
  induction evs as [|e evs IH]; cbn; [done|]. intros H.
  apply andb_prop in H as [He H]. destruct e; try discriminate; now apply IH.
Qed.

Lemma header_trace (l : SHLogger) (stk : list Frame) (category level : string)
    (w : World) :
  exists evs, trace (snd (header l stk category level w)) = trace w ++ evs /\
              forallb runtime_event evs = true.
Proof.
  destruct (header_world l stk category level w) as [n ->].
  exists (EvCaller 2 :: replicate n EvNow). cbn.
  split; [now rewrite <- app_assoc|apply runtime_events_replicate].
Qed.

Lemma lockedWrite_trace (buf : bytes) (m : Machine) :
  mutex (self m) = false ->
  trace (world (snd (lockedWrite buf m))) =
    trace (world m) ++ [EvLock; EvWrite (out (self m)) buf; EvUnlock].
Proof.
  intros Hm. rewrite lockedWrite_free by done.
  destruct (File_Write_trace (out (self m)) buf
              (set_trace (world m) (trace (world m) ++ [EvLock]))) as [Ht _].
  destruct (File_Write _ _ _) as [r w]. cbn in *. rewrite Ht.
  now rewrite <- !app_assoc.
Qed.

Lemma exec_trace (c : Call) (m : Machine) :
  mutex (self m) = false ->
  exists evs, trace (world (snd (exec c m))) = trace (world m) ++ evs /\
              lock_disciplined false evs = Some false.
Proof.
  intros Hm.
  assert (Hnil : exists evs, trace (world m) = trace (world m) ++ evs /\
                             lock_disciplined false evs = Some false).
  { exists []. now rewrite app_nil_r. }
  assert (Hhdr : forall stk category level,
            exists evs, trace (snd (header (self m) stk category level (world m))) =
                        trace (world m) ++ evs /\
                        lock_disciplined false evs = Some false).
  { intros stk category level.
    destruct (header_trace (self m) stk category level (world m)) as (evs & -> & He).
    exists evs. split; [done|]. now apply lock_disciplined_runtime. }
  assert (Hwr : forall stk category level body,
            exists evs,
              trace (world (snd (lockedWrite
                (fst (header (self m) stk category level (world m)) ++ body)
                (mkMachine (self m) (snd (header (self m) stk category level (world m))))))) =
              trace (world m) ++ evs /\
              lock_disciplined false evs = Some false).
  { intros stk category level body. rewrite lockedWrite_trace by exact Hm.
    cbn [self world].
    destruct (header_trace (self m) stk category level (world m)) as (evs & -> & He).
    eexists. rewrite <- app_assoc. split; [reflexivity|].
    now rewrite (lock_disciplined_app false false)
      by (now apply lock_disciplined_runtime). }
  destruct c; cbn [exec]; try exact Hnil.
  - rewrite Close_eq, File_Close_eq. cbn. now exists [EvClose (out (self m))].
  - unfold_M. destruct (decide (filename (self m) ∈ denied (world m))) as [Hd|Hd].
    + rewrite Reopen_fail by done. cbn. eexists. split; [reflexivity|done].
    + rewrite Reopen_ok by done. cbn. eexists. split; [reflexivity|done].
  - unfold SetCategory. unfold_M. now destruct (categories (self m)).
  - unfold_M. rewrite Printf_eq. destruct (checkPrintable _ _ _); [|exact Hnil].
    destruct (Hwr stk category level (bytes_of (fmt_Sprintf format a))) as (evs & He & Hl).
    destruct (lockedWrite _ _) as [[r| |] m']; cbn in *; eauto.
  - unfold_M. rewrite Println_eq. destruct (checkPrintable _ _ _); [|exact Hnil].
    destruct (Hwr stk category level (bytes_of (fmt_Sprintln a))) as (evs & He & Hl).
    destruct (lockedWrite _ _) as [[r| |] m']; cbn in *; eauto.
  - unfold_M. rewrite Sprintf_eq. destruct (checkPrintable _ _ _); [|exact Hnil].
    cbn. apply Hhdr.
  - unfold_M. rewrite Sprintln_eq. destruct (checkPrintable _ _ _); [|exact Hnil].
    cbn. apply Hhdr.
Qed.

(** X15. The lock discipline.  From a state with the lock free, the calls
    that any sequence of calls makes outside the package keep it: the lock
    is never taken while held nor released while free, every write to the
    sink and every open of a file happens with the lock held, and the lock
    is free again at the end. *)
Theorem X15_lock_discipline (cs : list Call) (m : Machine) :
  mutex (self m) = false ->
  mutex (self (snd (run cs m))) = false /\
  exists evs, trace (world (snd (run cs m))) = trace (world m) ++ evs /\
              lock_disciplined false evs = Some false.
Proof.
  revert m. induction cs as [|c cs IH]; intros m Hm.
  - split; [done|]. exists []. now rewrite app_nil_r.
  - cbn [run]. unfold_M.
    pose proof (exec_mutex c m Hm) as Hm'.
    destruct (exec_trace c m Hm) as (evs & He & Hl).
    destruct (exec c m) as [[[]| |] m']; cbn [snd] in *.
    + destruct (IH m' Hm') as (Hm2 & evs' & He' & Hl').
      split; [done|]. exists (evs ++ evs'). rewrite He', He, <- app_assoc.
      split; [done|]. now rewrite (lock_disciplined_app false false).
    + eauto.
    + eauto.
Qed.

Lemma closed_handles_other (o : option nat) (hs : list File) (h : nat) :
  o <> Some h -> closed_handles o hs !! h = hs !! h.
Proof.
  intros Hne. unfold closed_handles. destruct o as [h0|]; [|done].
  destruct (hs !! h0) as [f|]; [|done]. destruct (f_closed f); [done|].
  apply list_lookup_insert_ne. congruence.
Qed.

Lemma closed_handles_all_closed (m : Machine) (h : nat) (f : File) :
  only_out_open m ->
  closed_handles (out (self m)) (handles (world m)) !! h = Some f ->
  f_closed f = true.
Proof.
  intros Hinv Hh. destruct (decide (out (self m) = Some h)) as [Ho|Ho].
  - rewrite Ho in Hh.
    destruct (handles (world m) !! h) as [f0|] eqn:E.
    + destruct (closed_handles_closed h f0 _ E) as (f' & Hf' & Hc & _). congruence.
    + unfold closed_handles in Hh. rewrite E in Hh. congruence.
  - rewrite closed_handles_other in Hh by done.
    destruct (f_closed f) eqn:Ef; [done|]. now specialize (Hinv h f Hh Ef).
Qed.

Lemma exec_only_out_open (c : Call) (m : Machine) :
  only_out_open m -> only_out_open (snd (exec c m)).
Proof.
  intros Hinv.
  assert (Hsame : forall m', out (self m') = out (self m) ->
                             handles (world m') = handles (world m) ->
                             only_out_open m').
  { intros m' Hs Hh h f. rewrite Hs, Hh. apply Hinv. }
  assert (Hwr : forall buf stk category level,
            only_out_open (snd (lockedWrite buf
              (mkMachine (self m) (snd (header (self m) stk category level (world m))))))).
  { intros buf stk category level. apply Hsame; [now rewrite lockedWrite_self|].
    destruct (header_frame (self m) stk category level (world m)) as (_ & Hh & _).
    destruct (mutex (self m)) eqn:E.
    - now rewrite lockedWrite_blocked.
    - rewrite lockedWrite_free by done.
      destruct (File_Write_trace (out (self m)) buf
        (set_trace (snd (header (self m) stk category level (world m)))
           (trace (snd (header (self m) stk category level (world m))) ++ [EvLock])))
        as [_ Hw].
      cbn [self world] in *. destruct (File_Write _ _ _) as [r w]. cbn in *.
      now rewrite Hw. }
  destruct c; cbn [exec]; try (now apply Hsame).
  - rewrite Close_eq, File_Close_eq. intros h f Hh Hf.
    cbn [snd self world handles out] in *.
    pose proof (closed_handles_all_closed m h f Hinv Hh). congruence.
  - unfold_M. destruct (mutex (self m)) eqn:E.
    + now rewrite Reopen_blocked.
    + destruct (decide (filename (self m) ∈ denied (world m))) as [Hd|Hd].
      * rewrite Reopen_fail by done. intros h f Hh Hf. cbn in *.
        pose proof (closed_handles_all_closed m h f Hinv Hh). congruence.
      * rewrite Reopen_ok by done. intros h f Hh Hf.
        cbn [snd self world handles out set_out] in *.
        destruct (decide (h < length (handles (world m)))%nat) as [Hlt|Hge].
        -- rewrite lookup_app_l in Hh by (rewrite closed_handles_length; exact Hlt).
           pose proof (closed_handles_all_closed m h f Hinv Hh). congruence.
        -- apply lookup_lt_Some in Hh. rewrite length_app, closed_handles_length in Hh.
           cbn in Hh. f_equal. lia.
  - unfold SetCategory. unfold_M. destruct (categories (self m)); now apply Hsame.
  - unfold_M. rewrite Printf_eq. destruct (checkPrintable _ _ _); [|exact Hinv].
    specialize (Hwr (fst (header (self m) stk category level (world m)) ++
                     bytes_of (fmt_Sprintf format a)) stk category level).
    now destruct (lockedWrite _ _) as [[r| |] m'].
  - unfold_M. rewrite Println_eq. destruct (checkPrintable _ _ _); [|exact Hinv].
    specialize (Hwr (fst (header (self m) stk category level (world m)) ++
                     bytes_of (fmt_Sprintln a)) stk category level).
    now destruct (lockedWrite _ _) as [[r| |] m'].
  - unfold_M. rewrite Sprintf_eq. destruct (checkPrintable _ _ _); [|exact Hinv].
    cbn [snd]. apply Hsame; [done|]. cbn [world].
    now destruct (header_frame (self m) stk category level (world m)) as (_ & -> & _).
  - unfold_M. rewrite Sprintln_eq. destruct (checkPrintable _ _ _); [|exact Hinv].
    cbn [snd]. apply Hsame; [done|]. cbn [world].
    now destruct (header_frame (self m) stk category level (world m)) as (_ & -> & _).
Qed.

(** X16. No file object leaks.  When the sink of the logger is the only
    open file object, as right after [Open] in a world without open files,
    it still is after any sequence of calls: [Reopen] closes the old file
    before it opens the new one, also when the open fails. *)
Theorem X16_no_file_object_leaks (cs : list Call) (m : Machine) :
  only_out_open m ->
  only_out_open (snd (run cs m)) /\
  (forall name w l w',
     (forall h f, handles w !! h = Some f -> f_closed f = true) ->
     Open name w = (inl l, w') -> only_out_open (mkMachine l w')).
Proof.
  intros H. split.
  - revert m H. induction cs as [|c cs IH]; intros m H; [done|].
    cbn [run]. unfold_M. pose proof (exec_only_out_open c m H) as H'.
    destruct (exec c m) as [[[]| |] m']; cbn [snd] in *; [|done|done].
    now apply IH.
  - intros name w l w' Hw Ho. destruct (decide (name ∈ denied w)) as [Hd|Hd].
    + rewrite (Open_fail_eq name w Hd) in Ho. discriminate.
    + rewrite (Open_ok_eq name w Hd) in Ho. injection Ho as <- <-.
      intros h f Hh Hf. cbn in *.
      destruct (decide (h < length (handles w))%nat) as [Hlt|Hge].
      * rewrite lookup_app_l in Hh by done. specialize (Hw h f Hh). congruence.
      * apply lookup_lt_Some in Hh. rewrite length_app in Hh. cbn in Hh. f_equal. lia.
Qed.

(** ** The short file name of any path *)

Lemma lastIndexFrom_bounds (s : bytes) (c : ascii) (i : nat) :
  -1 <= lastIndexFrom s c i < Z.of_nat i.
Proof.
  induction i as [|j IH]; cbn [lastIndexFrom]; [lia|].
  destruct (s !! j) as [x|]; [destruct (decide (x = c))|]; lia.
Qed.

Lemma getShortFileName_split (a b : bytes) :
  "/"%char ∉ b ->
  getShortFileName (string_of (a ++ "/"%char :: b)) = string_of b.
Proof.
  intros H. unfold getShortFileName, strings_LastIndex.
  rewrite bytes_of_string_of, length_app. cbn [length].
  replace (length a + S (length b))%nat with (S (length a + length b)) by lia.
  rewrite lastIndexFrom_last by done.
  replace (Z.to_nat (Z.of_nat (length a) + 1)) with (length (a ++ ["/"%char]))
    by (rewrite length_app; cbn; lia).
  now rewrite (cons_middle "/"%char a b), app_assoc, drop_app_length.
Qed.

Lemma getShortFileName_no_slash (file : string) :
  "/"%char ∉ bytes_of file -> getShortFileName file = file.
Proof.
  intros H. unfold getShortFileName, strings_LastIndex.
  rewrite lastIndexFrom_none by done. cbn. rewrite drop_0. apply string_of_bytes_of.
Qed.

(** X17. [getShortFileName] on any path: the index that [strings.LastIndex]
    gives keeps the slice expression within the string, so the function
    never panics; the result holds no [/]; the path is the result itself or
    a directory part that ends in [/] followed by the result; and the
    function changes nothing when applied again. *)
Theorem X17_short_name_of_any_path (file : string) :
  -1 <= strings_LastIndex file "/" < Z.of_nat (length (bytes_of file)) /\
  ("/"%char ∉ bytes_of (getShortFileName file)) /\
  (exists dir, bytes_of file = dir ++ bytes_of (getShortFileName file) /\
               (dir = [] \/ last dir = Some "/"%char)) /\
  getShortFileName (getShortFileName file) = getShortFileName file.
Proof.
  split; [apply lastIndexFrom_bounds|].
  destruct (decide ("/"%char ∈ bytes_of file)) as [Hin|Hout].
  - apply list_elem_of_split_r in Hin as (a & b & E & Hb).
    assert (Hs : getShortFileName file = string_of b).
    { rewrite <- (string_of_bytes_of file), E. now apply getShortFileName_split. }
    rewrite Hs, bytes_of_string_of. split; [done|]. split.
    + exists (a ++ ["/"%char]). rewrite <- app_assoc. split; [done|].
      right. apply last_snoc.
    + apply getShortFileName_no_slash. now rewrite bytes_of_string_of.
  - rewrite (getShortFileName_no_slash file Hout). split; [done|]. split.
    + exists []. now split; [|left].
    + now apply getShortFileName_no_slash.
Qed.

(** ** Literal text in the prefix *)

Lemma render_escape (d : ascii -> IO bytes) (s : bytes) (w : World) :
  (forall w0, d "%"%char w0 = (["%"%char], w0)) ->
  render d (escape s) w = (s, w).
Proof.
  intros Hd. induction s as [|c s IH]; [done|]. cbn [escape].
  destruct (Ascii.eqb_spec c "%"%char) as [->|Hc].
  - now rewrite render_percent, Hd, IH.
  - now rewrite render_other, IH.
Qed.

(** X18. Any text can be a prefix: after [SetPrefix] of the text with every
    [%] doubled, the header is the text itself, byte for byte, for every
    call site, category and level; no directive is met and the clock is not
    read.  [Sprintf] returns the text followed by the body. *)
Theorem X18_escaped_prefix_is_literal (text : string) (stk : list Frame)
    (category level format : string) (a : list iface) (m : Machine) :
  let m1 := snd (SetPrefix (string_of (escape (bytes_of text))) m) in
  header (self m1) stk category level (world m1) =
    (bytes_of text, set_trace (world m) (trace (world m) ++ [EvCaller 2])) /\
  (checkPrintable (self m) category level = true ->
   fst (Sprintf stk category level format a m1) = Ret (text +:+ fmt_Sprintf format a)).
Proof.
  cbn zeta. unfold SetPrefix. unfold_M.
  assert (Hh : forall l w, prefix l = string_of (escape (bytes_of text)) ->
            header l stk category level w =
              (bytes_of text, set_trace w (trace w ++ [EvCaller 2]))).
  { intros l w Hp. unfold header. rewrite Hp, bytes_of_string_of.
    now apply render_escape. }
  split; [now apply Hh|]. intros Hc. rewrite Sprintf_eq. cbn [self world].
  assert (checkPrintable (set_prefix (self m) (string_of (escape (bytes_of text))))
            category level = checkPrintable (self m) category level) as -> by done.
  rewrite Hc, Hh by done. cbn [fst].
  now rewrite <- bytes_of_app, string_of_bytes_of.
Qed.

(** ** The clock *)

Lemma substitution_clock (ctx : CallContext) (c : ascii) (w : World) :
  snd (substitution ctx c w) =
    after_clock_reads (if decide (c = "t"%char) then 1 else 0) w.
Proof.
  destruct (decide (c = "t"%char)) as [->|Hc].
  - cbn. unfold after_clock_reads, set_ticks, set_trace. cbn.
    now rewrite Nat.add_1_r.
  - rewrite after_clock_reads_0.
    destruct (substitution_same_clock ctx c w w) as [_ _]; [done|].
    unfold substitution.
    repeat match goal with
    | |- context [match ?x with _ => _ end] => is_var x; destruct x
    end; try reflexivity; congruence.
Qed.

Lemma render_clock (ctx : CallContext) (t : bytes) (w : World) :
  snd (render (substitution ctx) t w) =
    after_clock_reads (length (filter (.= "t"%char) (directives t))) w.
Proof.
  revert w. induction t as [| |x t IH|c t Hc IH] using render_induction; intros w.
  - now rewrite after_clock_reads_0.
  - now rewrite after_clock_reads_0.
  - rewrite render_percent. pose proof (substitution_clock ctx x w) as Hx.
    destruct (substitution ctx x w) as [s w1]. cbn [snd] in Hx. subst w1.
    specialize (IH (after_clock_reads (if decide (x = "t"%char) then 1 else 0) w)).
    destruct (render _ t _) as [r w2]. cbn [snd] in *. subst w2.
    rewrite after_clock_reads_add. f_equal.
    change (directives ("%"%char :: x :: t)) with (x :: directives t).
    rewrite filter_cons. now destruct (decide (x = "t"%char)).
  - rewrite render_other by done. specialize (IH w).
    destruct (render _ t w) as [r w2]. cbn [snd] in *. subst w2. f_equal.
    cbn [directives]. now rewrite (proj2 (Ascii.eqb_neq c "%"%char)).
Qed.

Lemma substitution_timeless (ctx : CallContext) (c : ascii) (w1 w2 : World) :
  c <> "t"%char -> fst (substitution ctx c w1) = fst (substitution ctx c w2).
Proof.
  intros Hc. unfold substitution.
  repeat match goal with
  | |- context [match ?x with _ => _ end] => is_var x; destruct x
  end; try reflexivity; congruence.
Qed.

Lemma render_timeless (ctx : CallContext) (t : bytes) (w1 w2 : World) :
  ("t"%char ∉ directives t) ->
  fst (render (substitution ctx) t w1) = fst (render (substitution ctx) t w2).
Proof.
  revert w1 w2. induction t as [| |x t IH|c t Hc IH] using render_induction;
    intros w1 w2 H.
  - done.
  - done.
  - change (directives ("%"%char :: x :: t)) with (x :: directives t) in H.
    apply not_elem_of_cons in H as [Hx Ht].
    rewrite !render_percent.
    pose proof (substitution_timeless ctx x w1 w2 (not_eq_sym Hx)) as Hs.
    destruct (substitution ctx x w1) as [s1 w1'], (substitution ctx x w2) as [s2 w2'].
    cbn [fst] in Hs. subst s2. specialize (IH w1' w2' Ht).
    destruct (render _ t w1') as [r1 w1''], (render _ t w2') as [r2 w2''].
    cbn [fst] in *. now subst.
  - cbn [directives] in H. rewrite (proj2 (Ascii.eqb_neq c "%"%char)) in H by done.
    rewrite !render_other by done. specialize (IH w1 w2 H).
    destruct (render _ t w1) as [r1 w1'], (render _ t w2) as [r2 w2'].
    cbn [fst] in *. now subst.
Qed.

(** X19. [formatHeader] calls [runtime.Caller] once and [time.Now] once for
    every [%t] of the prefix, each [%t] reading the clock anew; it does
    nothing else to the world.  With no [%t] in the prefix the header is
    the same text at every time and in every state of the world. *)
Theorem X19_clock_read_per_time_directive (stk : list Frame)
    (category level : string) (buf : bytes) (m : Machine) :
  let n := length (filter (.= "t"%char) (directives (bytes_of (prefix (self m))))) in
  snd (formatHeader stk category level buf m) =
    mkMachine (self m)
      (after_clock_reads n (set_trace (world m) (trace (world m) ++ [EvCaller 2]))) /\
  (n = 0%nat -> forall w,
     fst (formatHeader stk category level buf (mkMachine (self m) w)) =
     fst (formatHeader stk category level buf m)).
Proof.
  cbn zeta. split.
  - rewrite formatHeader_render. cbn zeta.
    pose proof (render_clock (callContext (self m) stk category level)
                  (bytes_of (prefix (self m)))
                  (set_trace (world m) (trace (world m) ++ [EvCaller 2]))) as Hc.
    destruct (render _ _ _) as [r w']. cbn [snd] in *. now subst w'.
  - intros Hn w.
    assert (Ht : "t"%char ∉ directives (bytes_of (prefix (self m)))).
    { intros Hin. apply length_zero_iff_nil in Hn.
      assert (H : "t"%char ∈ filter (.= "t"%char) (directives (bytes_of (prefix (self m)))))
        by (now apply list_elem_of_filter).
      rewrite Hn in H. now apply elem_of_nil in H. }
    rewrite !formatHeader_render. cbn zeta. cbn [self world].
    pose proof (render_timeless (callContext (self m) stk category level)
                  (bytes_of (prefix (self m)))
                  (set_trace w (trace w ++ [EvCaller 2]))
                  (set_trace (world m) (trace (world m) ++ [EvCaller 2])) Ht) as H.
    destruct (render _ _ (set_trace w _)) as [r1 w1], (render _ _ _) as [r2 w2].
    cbn [fst] in *. now subst.
Qed.

(** ** The file as the transcript of the calls *)

Lemma exec_live (c : Call) (m : Machine) (h : nat) (f : File) :
  ready (self m) -> out (self m) = Some h ->
  handles (world m) !! h = Some f -> f_closed f = false ->
  is_Close_or_Reopen c = false ->
  let m' := snd (exec c m) in
  out (self m') = Some h /\ handles (world m') = handles (world m) /\
  default [] (disk (world m') !! f_name f) =
    default [] (disk (world m) !! f_name f) ++ emitted c m /\
  (forall other, other <> f_name f ->
     disk (world m') !! other = disk (world m) !! other).
Proof.
  intros [Hm Hc] Ho Hh Hf Hk. cbn zeta.
  assert (Hnil : forall m', out (self m') = Some h ->
            handles (world m') = handles (world m) ->
            disk (world m') = disk (world m) ->
            out (self m') = Some h /\ handles (world m') = handles (world m) /\
            default [] (disk (world m') !! f_name f) =
              default [] (disk (world m) !! f_name f) ++ [] /\
            (forall other, other <> f_name f ->
               disk (world m') !! other = disk (world m) !! other)).
  { intros m' H1 H2 H3. rewrite H3, app_nil_r. now repeat split. }
  assert (Hwr : forall stk category level body,
            let buf := fst (header (self m) stk category level (world m)) ++ body in
            let m' := snd (lockedWrite buf
                        (mkMachine (self m)
                           (snd (header (self m) stk category level (world m))))) in
            out (self m') = Some h /\ handles (world m') = handles (world m) /\
            default [] (disk (world m') !! f_name f) =
              default [] (disk (world m) !! f_name f) ++ buf /\
            (forall other, other <> f_name f ->
               disk (world m') !! other = disk (world m) !! other)).
  { intros stk category level body buf m'.
    destruct (header_frame (self m) stk category level (world m)) as (Hd & Hhs & _).
    destruct (lockedWrite_live buf
                (mkMachine (self m) (snd (header (self m) stk category level (world m))))
                h f) as (m2 & E & Hs & Hh2 & Hd2); cbn [self world]; try done.
    { now rewrite Hhs. }
    subst m'. rewrite E. cbn [snd]. cbn [self world] in *.
    rewrite Hs, Hh2, Hd2, Hhs, Hd. split; [done|]. split; [done|]. split.
    - now rewrite lookup_insert_eq.
    - intros other Hne. now rewrite lookup_insert_ne. }
  destruct c; try discriminate; cbn [exec emitted]; try (now apply Hnil).
  - destruct Hc as [cm Hcm]. rewrite (SetCategory_ok _ _ _ _ Hcm). now apply Hnil.
  - unfold_M. rewrite Printf_eq, Sprintf_eq.
    destruct (checkPrintable _ _ _); [|now apply Hnil].
    cbn [fst returned]. rewrite bytes_of_string_of.
    specialize (Hwr stk category level (bytes_of (fmt_Sprintf format a))).
    cbn zeta in Hwr. now destruct (lockedWrite _ _) as [[r| |] m'].
  - unfold_M. rewrite Println_eq, Sprintln_eq.
    destruct (checkPrintable _ _ _); [|now apply Hnil].
    cbn [fst returned]. rewrite bytes_of_string_of.
    specialize (Hwr stk category level (bytes_of (fmt_Sprintln a))).
    cbn zeta in Hwr. now destruct (lockedWrite _ _) as [[r| |] m'].
  - unfold_M. rewrite Sprintf_eq. destruct (checkPrintable _ _ _); [|now apply Hnil].
    cbn [snd]. destruct (header_frame (self m) stk category level (world m)) as (Hd & Hhs & _).
    now apply Hnil.
  - unfold_M. rewrite Sprintln_eq. destruct (checkPrintable _ _ _); [|now apply Hnil].
    cbn [snd]. destruct (header_frame (self m) stk category level (world m)) as (Hd & Hhs & _).
    now apply Hnil.
Qed.

(** X20. The file is the transcript of the calls.  With a ready logger on
    an open sink, and as long as nobody calls [Close] or [Reopen], any
    sequence of calls leaves in the file of the sink what it held followed,
    in the order of the calls, by what the string variant of each [Printf]
    and [Println] returns in the state that call meets (nothing for a
    filtered call); no other file changes. *)
Theorem X20_file_is_the_transcript (cs : list Call) (m : Machine) (h : nat) (f : File) :
  ready (self m) -> out (self m) = Some h ->
  handles (world m) !! h = Some f -> f_closed f = false ->
  forallb (fun c => negb (is_Close_or_Reopen c)) cs = true ->
  let m' := snd (run cs m) in
  default [] (disk (world m') !! f_name f) =
    default [] (disk (world m) !! f_name f) ++ transcript cs m /\
  (forall other, other <> f_name f ->
     disk (world m') !! other = disk (world m) !! other).
Proof.
  revert m. induction cs as [|c cs IH]; intros m Hr Ho Hh Hf Hcs; cbn zeta.
  - cbn. now rewrite app_nil_r.
  - cbn [forallb] in Hcs. apply andb_prop in Hcs as [Hc Hcs].
    apply negb_true_iff in Hc.
    destruct (exec_ready c m Hr) as [Hret Hr'].
    destruct (exec_live c m h f Hr Ho Hh Hf Hc) as (Ho' & Hh' & Hd' & Hother).
    cbn [run transcript]. unfold_M.
    destruct (exec c m) as [o m1]. cbn [fst snd] in *. subst o.
    rewrite <- Hh' in Hh.
    destruct (IH m1 Hr' Ho' Hh Hf Hcs) as [Hd2 Hother2].
    split.
    + now rewrite Hd2, Hd', <- app_assoc.
    + intros other Hne. now rewrite Hother2, Hother.
Qed.

(** ** The layout of the time *)

Lemma substitution_layout (ctx1 ctx2 : CallContext) (c : ascii) (w : World) :
  cc_pc ctx1 = cc_pc ctx2 -> cc_file ctx1 = cc_file ctx2 ->
  cc_line ctx1 = cc_line ctx2 -> cc_func ctx1 = cc_func ctx2 ->
  cc_category ctx1 = cc_category ctx2 -> cc_level ctx1 = cc_level ctx2 ->
  (if decide (cc_timeformat ctx1 = "") then time_RFC3339 else cc_timeformat ctx1) =
  (if decide (cc_timeformat ctx2 = "") then time_RFC3339 else cc_timeformat ctx2) ->
  substitution ctx1 c w = substitution ctx2 c w.
Proof.
  intros H1 H2 H3 H4 H5 H6 H7. unfold substitution.
  rewrite H1, H2, H3, H4, H5, H6, H7. reflexivity.
Qed.

Lemma header_layout (l1 l2 : SHLogger) (stk : list Frame) (category level : string)
    (w : World) :
  prefix l1 = prefix l2 ->
  (if decide (timeformat l1 = "") then time_RFC3339 else timeformat l1) =
  (if decide (timeformat l2 = "") then time_RFC3339 else timeformat l2) ->
  header l1 stk category level w = header l2 stk category level w.
Proof.
  intros Hp Ht. unfold header. rewrite Hp. apply render_ext. intros c w0.
  unfold callContext. destruct (stk !! 2%nat); now apply substitution_layout.
Qed.

Lemma lockedWrite_sink (buf : bytes) (m1 m2 : Machine) :
  mutex (self m1) = mutex (self m2) -> out (self m1) = out (self m2) ->
  world m1 = world m2 ->
  fst (lockedWrite buf m1) = fst (lockedWrite buf m2) /\
  world (snd (lockedWrite buf m1)) = world (snd (lockedWrite buf m2)).
Proof.
  intros Hm Ho Hw. destruct (mutex (self m2)) eqn:E.
  - now rewrite !lockedWrite_blocked.
  - rewrite !lockedWrite_free, Ho, Hw by done.
    now destruct (File_Write _ _ _).
Qed.

(** X21. The layout of [%t] is the one given to [SetTimeFormat], and
    [time.RFC3339] when that is the empty string, as on a new logger:
    after [SetTimeFormat("")] and after [SetTimeFormat(time.RFC3339)] every
    call returns the same value, writes the same bytes and leaves the same
    world. *)
Theorem X21_empty_time_format_is_RFC3339 (stk : list Frame)
    (category level format : string) (a : list iface) (m : Machine) :
  let m1 := snd (SetTimeFormat "" m) in
  let m2 := snd (SetTimeFormat time_RFC3339 m) in
  fst (Sprintf stk category level format a m1) =
    fst (Sprintf stk category level format a m2) /\
  fst (Sprintln stk category level a m1) = fst (Sprintln stk category level a m2) /\
  fst (Printf stk category level format a m1) =
    fst (Printf stk category level format a m2) /\
  world (snd (Printf stk category level format a m1)) =
    world (snd (Printf stk category level format a m2)) /\
  fst (Println stk category level a m1) = fst (Println stk category level a m2) /\
  world (snd (Println stk category level a m1)) =
    world (snd (Println stk category level a m2)).
Proof.
  cbn zeta. unfold SetTimeFormat. unfold_M.
  set (l1 := set_timeformat (self m) "").
  set (l2 := set_timeformat (self m) time_RFC3339).
  assert (Hh : forall w, header l1 stk category level w = header l2 stk category level w).
  { intros w. now apply header_layout. }
  assert (Hc : checkPrintable l1 category level = checkPrintable l2 category level)
    by done.
  rewrite !Sprintf_eq, !Sprintln_eq, !Printf_eq, !Println_eq. cbn [self world].
  rewrite Hc, Hh. destruct (checkPrintable l2 category level); [|done].
  split; [done|]. split; [done|].
  destruct (lockedWrite_sink
              (fst (header l2 stk category level (world m)) ++ bytes_of (fmt_Sprintf format a))
              (mkMachine l1 (snd (header l2 stk category level (world m))))
              (mkMachine l2 (snd (header l2 stk category level (world m)))))
    as [H1 H2]; [done..|].
  destruct (lockedWrite_sink
              (fst (header l2 stk category level (world m)) ++ bytes_of (fmt_Sprintln a))
              (mkMachine l1 (snd (header l2 stk category level (world m))))
              (mkMachine l2 (snd (header l2 stk category level (world m)))))
    as [H3 H4]; [done..|].
  now repeat split.
Qed.

End Properties.

(** * The claims at concrete inputs *)

#[local] Existing Instance demo_runtime.

Lemma C1_witness :
  checkPrintable (self (snd (SetCategory "db" "INFO" demo_machine))) "db" "DEBUG" = false /\
  checkPrintable (self (snd (SetCategory "db" "INFO" demo_machine))) "db" "WARN" = true /\
  (checkPrintable (self demo_machine) "net" "WARN" = true <->
   map_index (levelmap (self demo_machine)) "WARN" <= deflevel (self demo_machine)).
Proof.
  split; [vm_compute; reflexivity|]. split; [vm_compute; reflexivity|].
  apply (C1_filter_rule (self demo_machine) "net" "WARN"). vm_compute. reflexivity.
Defined.

Lemma C3_witness :
  checkPrintable (self demo_machine) "app" "DEBUG" = false /\
  Printf demo_stack "app" "DEBUG" "%d" demo_args demo_machine = (Ret (0, None), demo_machine).
Proof.
  split; [vm_compute; reflexivity|].
  apply (C3_filtered_calls_do_nothing demo_stack "app" "DEBUG" "%d" demo_args demo_machine).
  vm_compute. reflexivity.
Defined.

Lemma C4_witness :
  levelmap (self demo_machine) !! "TRACE" = None /\
  checkPrintable (self demo_machine) "app" "TRACE" = true.
Proof.
  split; [vm_compute; reflexivity|].
  apply (C4_unknown_level_passes (self demo_machine) "app" "TRACE");
    vm_compute; reflexivity.
Defined.

Lemma C5_witness :
  deflevel (self (snd ((SetDefaultLevel "INFO";;
     run [CallSetLevelMap (<["INFO" := 9]> ∅); CallSetPrefix "%L "]) demo_machine))) = 5.
Proof.
  apply (proj2 (proj2 (proj2 (C5_default_level_resolved_once "INFO" demo_machine)))).
  vm_compute. reflexivity.
Defined.

Lemma C6_witness :
  "db" <> "db.read" /\ "db.readonly" <> "db.read" /\
  checkPrintable (self (snd (SetCategory "db.read" "ALL" demo_machine))) "db" "DEBUG" =
  checkPrintable (self demo_machine) "db" "DEBUG" /\
  checkPrintable (self (snd (SetCategory "db.read" "ALL" demo_machine))) "db.readonly" "DEBUG" =
  checkPrintable (self demo_machine) "db.readonly" "DEBUG" /\
  checkPrintable (self (snd (SetCategory "db.read" "ALL" demo_machine))) "db.read" "DEBUG" = true /\
  checkPrintable (self demo_machine) "db.read" "DEBUG" = false.
Proof.
  split; [discriminate|]. split; [discriminate|].
  split; [apply (C6_category_exact_match "db.read" "ALL" "db" "DEBUG" demo_machine);
          discriminate|].
  split; [apply (C6_category_exact_match "db.read" "ALL" "db.readonly" "DEBUG" demo_machine);
          discriminate|].
  split; vm_compute; reflexivity.
Defined.

Lemma C9_counterexample : ~ C9_only_zero_levels_pass.
Proof.
  intros H.
  specialize (H negative_machine "db" "TRACE" "NEG" ∅).
  assert (E : map_index (levelmap (self negative_machine)) "NEG" = 0).
  { apply H; vm_compute; reflexivity. }
  vm_compute in E. discriminate.
Qed.

Lemma C9_witness :
  levelmap (self demo_machine) !! "TRACE" = None /\
  map_lookup (categories (self (snd (SetCategory "db" "TRACE" demo_machine)))) "db" = Some 0 /\
  deflevel (self (snd (SetDefaultLevel "TRACE" demo_machine))) = 0.
Proof.
  assert (H : levelmap (self demo_machine) !! "TRACE" = None) by (vm_compute; reflexivity).
  split; [exact H|].
  destruct (C9_unknown_threshold_is_zero "db" "TRACE" demo_machine H) as [Hc Hd].
  split.
  - apply (Hc ∅). vm_compute. reflexivity.
  - apply Hd.
Defined.

Lemma C2_witness :
  ("%"%char ∉ bytes_of "abc") /\
  headerLoop (bytes_of "abc") (fun _ w => ([], w)) 0 [] demo_world =
    (bytes_of "abc", demo_world) /\
  fst (formatHeader demo_stack "db" "WARN" [] prefixed_machine) =
    Ret (bytes_of "[WARN] db: ").
Proof.
  assert (H : "%"%char ∉ bytes_of "abc").
  { cbn. rewrite !not_elem_of_cons. repeat split; try discriminate.
    apply not_elem_of_nil. }
  split; [exact H|]. split.
  - apply (proj1 (proj2 C2_render_template) (fun _ w => ([], w)) (bytes_of "abc") []
             demo_world H).
  - apply (proj2 (proj2 (proj2 (proj2 (proj2 C2_render_template))))
             demo_stack prefixed_machine).
    vm_compute. reflexivity.
Defined.


Lemma C8_witness :
  ("/"%char ∉ bytes_of "main.go") /\
  getShortFileName ("/home/u" +:+ "/" +:+ "main.go") = "main.go" /\
  getShortFileName "main.go" = "main.go".
Proof.
  assert (H : "/"%char ∉ bytes_of "main.go").
  { cbn. rewrite !not_elem_of_cons. repeat split; try discriminate.
    apply not_elem_of_nil. }
  split; [exact H|]. split.
  - apply (proj1 (proj2 C8_short_file_name) "/home/u" "main.go" H).
  - apply (proj1 C8_short_file_name "main.go" H).
Defined.

Lemma C10_witness :
  checkPrintable (self prefixed_machine) "db" "WARN" = true /\
  fst (Sprintf demo_stack "db" "WARN" "slow query" demo_args (snd (Close prefixed_machine))) =
    Ret (string_of (fst (header (self prefixed_machine) demo_stack "db" "WARN"
                           (world prefixed_machine)) ++
                    bytes_of (fmt_Sprintf "slow query" demo_args))) /\
  fst (Sprintf demo_stack "db" "WARN" "slow query" demo_args (snd (Close prefixed_machine))) =
    Ret "[WARN] db: slow query".
Proof.
  assert (H : checkPrintable (self prefixed_machine) "db" "WARN" = true)
    by (vm_compute; reflexivity).
  split; [exact H|]. split.
  - apply (proj2 (proj2 (proj2 (C10_sprint_ignores_the_sink demo_stack "db" "WARN"
             "slow query" demo_args prefixed_machine))) H).
  - vm_compute. reflexivity.
Defined.

(** * The further properties at concrete inputs *)

Lemma X2_witness :
  fst (Open "app.log" demo_world) = inl (self demo_machine) /\
  (checkPrintable (self demo_machine) "db" "DEBUG" = true <->
   "DEBUG" ∉ ["INFO"; "DEBUG"; "ALL"]) /\
  deflevel (self demo_machine) = 4.
Proof.
  assert (H : fst (Open "app.log" demo_world) = inl (self demo_machine))
    by (vm_compute; reflexivity).
  split; [exact H|].
  split; apply (X2_Open_default_filter "app.log" demo_world (self demo_machine)
                  "db" "DEBUG" H).
Defined.

Lemma X3_witness :
  Open "app.log" demo_world = (inl (self demo_machine), world demo_machine) /\
  checkPrintable (self demo_machine) "app" "ERROR" = true /\
  fst (Sprintf demo_stack "app" "ERROR" "disk full" demo_args
         (mkMachine (self demo_machine) (world demo_machine))) = Ret "disk full".
Proof.
  assert (H1 : Open "app.log" demo_world = (inl (self demo_machine), world demo_machine))
    by (vm_compute; reflexivity).
  assert (H2 : checkPrintable (self demo_machine) "app" "ERROR" = true)
    by (vm_compute; reflexivity).
  split; [exact H1|]. split; [exact H2|].
  exact (proj1 (proj2 (proj2
    (X3_fresh_logger_writes_the_body "app.log" demo_world (world demo_machine)
       (self demo_machine) demo_stack "app" "ERROR" "disk full" demo_args H1 H2)))).
Defined.

Lemma X5_witness :
  mutex (self demo_machine) = false /\
  checkPrintable
    (self (snd ((Close;; run [CallSetPrefix "%L "; CallSetCategory "db" "ALL"])
                  demo_machine))) "db" "DEBUG" = true /\
  exists err,
    fst (Printf demo_stack "db" "DEBUG" "query" demo_args
           (snd ((Close;; run [CallSetPrefix "%L "; CallSetCategory "db" "ALL"])
                   demo_machine))) = Ret (0, Some err).
Proof.
  assert (H1 : mutex (self demo_machine) = false) by (vm_compute; reflexivity).
  assert (H2 : checkPrintable
    (self (snd ((Close;; run [CallSetPrefix "%L "; CallSetCategory "db" "ALL"])
                  demo_machine))) "db" "DEBUG" = true) by (vm_compute; reflexivity).
  split; [exact H1|]. split; [exact H2|].
  exact (proj1 (X5_writes_after_Close_fail demo_machine
           [CallSetPrefix "%L "; CallSetCategory "db" "ALL"]
           demo_stack "db" "DEBUG" "query" demo_args H1 eq_refl H2)).
Defined.

Lemma X6_witness :
  mutex (self locked_machine) = true /\
  Reopen locked_machine = (Blocked, locked_machine).
Proof.
  assert (H : mutex (self locked_machine) = true) by (vm_compute; reflexivity).
  split; [exact H|].
  exact (proj1 (X6_lock_held_blocks locked_machine demo_stack "app" "ERROR" "x"
                  demo_args H)).
Defined.

Lemma X9_witness :
  map_lookup (categories (self override_machine)) "db" = Some 5 /\
  map_lookup (categories (self (snd (run demo_session override_machine)))) "db" = Some 5.
Proof.
  assert (H : map_lookup (categories (self override_machine)) "db" = Some 5)
    by (vm_compute; reflexivity).
  split; [exact H|].
  apply (proj2 (X9_overrides_persist "db" 5 demo_session override_machine H)).
  vm_compute. reflexivity.
Defined.

Lemma X13_witness :
  mutex (self demo_machine) = false /\
  out (self demo_machine) = Some 0%nat /\
  handles (world demo_machine) !! 0%nat = Some (mkFile "app.log" false) /\
  checkPrintable (self demo_machine) "app" "ERROR" = true /\
  exists s,
    fst (Sprintf demo_stack "app" "ERROR" "disk full" demo_args demo_machine) = Ret s /\
    fst (Printf demo_stack "app" "ERROR" "disk full" demo_args demo_machine) =
      Ret (Z.of_nat (length (bytes_of s)), None) /\
    disk (world (snd (Printf demo_stack "app" "ERROR" "disk full" demo_args demo_machine))) =
      <["app.log" := default [] (disk (world demo_machine) !! "app.log") ++ bytes_of s]>
        (disk (world demo_machine)).
Proof.
  assert (H1 : mutex (self demo_machine) = false) by (vm_compute; reflexivity).
  assert (H2 : out (self demo_machine) = Some 0%nat) by (vm_compute; reflexivity).
  assert (H3 : handles (world demo_machine) !! 0%nat = Some (mkFile "app.log" false))
    by (vm_compute; reflexivity).
  assert (H4 : checkPrintable (self demo_machine) "app" "ERROR" = true)
    by (vm_compute; reflexivity).
  split; [exact H1|]. split; [exact H2|]. split; [exact H3|]. split; [exact H4|].
  exact (proj1 (X13_Printf_writes_what_Sprintf_returns demo_stack "app" "ERROR"
                  "disk full" demo_args demo_machine 0%nat (mkFile "app.log" false)
                  H1 H2 H3 eq_refl H4)).
Defined.

Lemma X14_witness :
  ready (self demo_machine) /\
  fst (run (CallReopen :: CallClose :: demo_session) demo_machine) = Ret tt.
Proof.
  assert (H : ready (self demo_machine)).
  { split; [vm_compute; reflexivity|]. exists ∅. vm_compute. reflexivity. }
  split; [exact H|].
  exact (proj1 (X14_calls_return (CallReopen :: CallClose :: demo_session)
                  demo_machine H)).
Defined.

Lemma X15_witness :
  mutex (self demo_machine) = false /\
  mutex (self (snd (run (CallReopen :: demo_session) demo_machine))) = false.
Proof.
  assert (H : mutex (self demo_machine) = false) by (vm_compute; reflexivity).
  split; [exact H|].
  exact (proj1 (X15_lock_discipline (CallReopen :: demo_session) demo_machine H)).
Defined.

Lemma X16_witness :
  only_out_open demo_machine /\
  only_out_open (snd (run (CallReopen :: demo_session ++ [CallReopen]) demo_machine)).
Proof.
  assert (H : only_out_open demo_machine).
  { intros h f Hh Hf. destruct h as [|h]; [vm_compute; reflexivity|].
    vm_compute in Hh. discriminate Hh. }
  split; [exact H|].
  exact (proj1 (X16_no_file_object_leaks (CallReopen :: demo_session ++ [CallReopen])
                  demo_machine H)).
Defined.

Lemma X20_witness :
  ready (self demo_machine) /\
  out (self demo_machine) = Some 0%nat /\
  handles (world demo_machine) !! 0%nat = Some (mkFile "app.log" false) /\
  default [] (disk (world (snd (run demo_session demo_machine))) !! "app.log") =
    default [] (disk (world demo_machine) !! "app.log") ++
    transcript demo_session demo_machine.
Proof.
  assert (H1 : ready (self demo_machine)).
  { split; [vm_compute; reflexivity|]. exists ∅. vm_compute. reflexivity. }
  assert (H2 : out (self demo_machine) = Some 0%nat) by (vm_compute; reflexivity).
  assert (H3 : handles (world demo_machine) !! 0%nat = Some (mkFile "app.log" false))
    by (vm_compute; reflexivity).
  split; [exact H1|]. split; [exact H2|]. split; [exact H3|].
  exact (proj1 (X20_file_is_the_transcript demo_session demo_machine 0%nat
                  (mkFile "app.log" false) H1 H2 H3 eq_refl eq_refl)).
Defined.

End shlog4go.
